(** * vision_toolkit: point-cloud comparison and LaTeX figure templating

    A shallow embedding of [visualization/compare_clouds.py] and
    [visualization/create_latex_figures.py].

    Conventions of the embedding:
    - numpy [float64] values are idealised as rationals [Q]; the special
      values that numpy produces without raising (NaN, infinities) are kept
      apart in [npfloat];
    - numpy [int64] grid indices are unbounded integers [Z];
    - a 1-d numpy array is a [list]; a 3 x N array is a list of N columns;
    - Python exceptions are outcomes [Raised cls], [cls] being the name of
      the exception class;
    - open3d point clouds are mutable objects: they live in a heap and the
      functions that touch them are written in a state-and-exception monad;
    - calls into open3d's nearest-neighbour search, matplotlib's colormaps,
      the file system and float formatting are parameters of the sections
      that use them. *)

From Stdlib Require Import QArith Qround Qminmax Lqa.
From stdpp Require Import gmap strings list.

Local Open Scope Z_scope.

(** ** Numbers *)

(** [np.round]: rounds to the nearest integer, ties going to the even one. *)
Definition np_round (q : Q) : Z :=
  let f := Qfloor q in
  match Qcompare (q - inject_Z f) (1 # 2) with
  | Lt => f
  | Gt => f + 1
  | Eq => if Z.even f then f else f + 1
  end.

(** [ndarray.astype(int)] on a float: truncation towards zero. *)
Definition astype_int (q : Q) : Z := Z.quot (Qnum q) (Zpos (Qden q)).

(** [def correct_round(n): return np.round(n+0.5)] (the result is a float). *)
Definition correct_round (n : Q) : Q := inject_Z (np_round (n + (1 # 2))).

(** The grid index of a scaled coordinate: [correct_round(qv).astype(int)]. *)
Definition grid_index (n : Q) : Z := astype_int (correct_round n).

(** Round half up, as the specification words it: [floor(x + 0.5)]. *)
Definition round_half_up (x : Q) : Z := Qfloor (x + (1 # 2)).

(** ** Exceptions *)

(** The outcome of a Python expression that may raise. *)
Inductive outcome (A : Type) : Type :=
  | Returned (a : A)
  | Raised (cls : string).
Arguments Returned {A} a.
Arguments Raised {A} cls.

Definition IndexError : string := "IndexError".
Definition ValueError : string := "ValueError".
Definition ZeroDivisionError : string := "ZeroDivisionError".
Definition SystemExit : string := "SystemExit".

#[global] Instance outcome_ret : MRet outcome := @Returned.
#[global] Instance outcome_bind : MBind outcome := λ A B f m,
  match m with
  | Returned a => f a
  | Raised cls => Raised cls
  end.

(** ** One-dimensional arrays *)

(** [np.where(cond)[0]]: the indices at which [cond] holds, ascending. *)
Fixpoint np_where_from (i : nat) (cond : list bool) : list nat :=
  match cond with
  | [] => []
  | b :: cond' =>
      if b then i :: np_where_from (S i) cond' else np_where_from (S i) cond'
  end.

Definition np_where (cond : list bool) : list nat := np_where_from 0 cond.

(** [a[idx]] for an integer index array [idx]: [IndexError] when an index
    is out of range.  (All index arrays met here hold non-negative
    indices: they come from [np.where] or [np.ravel_multi_index].) *)
Definition np_take {A} (a : list A) (idx : list nat) : outcome (list A) :=
  mapM (λ i, match a !! i with
             | Some x => Returned x
             | None => Raised IndexError
             end) idx.

(** [a[idx] = v] for an integer index array [idx]. *)
Definition np_put {A} (a : list A) (idx : list nat) (v : A) : outcome (list A) :=
  if forallb (λ i, bool_decide (i < length a)%nat) idx
  then Returned (foldl (λ acc i, <[i:=v]> acc) a idx)
  else Raised IndexError.

(** ** The source filter: [build_src_points_filter] *)

Definition point : Type := Q * Q * Q.

(** A 3-d boolean numpy array: its shape and its C-order flattening
    ([mask.flatten()]); cell [(i,j,k)] sits at offset
    [i*shape1*shape2 + j*shape2 + k]. *)
Record ndarray3 : Type := {
  shape : nat * nat * nat;
  flatten : list bool
}.

Definition ndarray3_wf (m : ndarray3) : Prop :=
  let '(s0, s1, s2) := shape m in
  length (flatten m) = (s0 * s1 * s2)%nat.

(** Line 55: the six comparisons joined by [&]. *)
Definition within_shape (mask_shape : nat * nat * nat) (q : Z * Z * Z) : bool :=
  let '(s0, s1, s2) := mask_shape in
  let '(q0, q1, q2) := q in
  (0 <=? q0) && (q0 <? Z.of_nat s0) && (0 <=? q1) && (q1 <? Z.of_nat s1)
  && (0 <=? q2) && (q2 <? Z.of_nat s2).

(** The C-order offset of a cell. *)
Definition offset (dims : nat * nat * nat) (q : Z * Z * Z) : nat :=
  let '(_, s1, s2) := dims in
  let '(q0, q1, q2) := q in
  Z.to_nat (q0 * (Z.of_nat s1 * Z.of_nat s2) + q1 * Z.of_nat s2 + q2).

(** [np.ravel_multi_index(q, dims, order='C')] for one column [q];
    numpy raises [ValueError] on an index outside [dims]. *)
Definition ravel_multi_index (q : Z * Z * Z) (dims : nat * nat * nat)
  : outcome nat :=
  if within_shape dims q then Returned (offset dims q) else Raised ValueError.

(** Lines 50-52 for one point: [correct_round((points - min_bound) / res).astype(int)]. *)
Definition quantize (min_bound : point) (res : Q) (p : point) : Z * Z * Z :=
  let '(x, y, z) := p in
  let '(mx, my, mz) := min_bound in
  (grid_index ((x - mx) / res), grid_index ((y - my) / res),
   grid_index ((z - mz) / res)).

Definition build_src_points_filter (points : list point) (min_bound : point)
    (res : Q) (mask : ndarray3) : outcome (list Z) :=
  let mask_shape := shape mask in
  let filt := replicate (length points) 0 in
  let qv := map (quantize min_bound res) points in
  (* get all valid points *)
  let in_bounds := np_where (map (within_shape mask_shape) qv) in
  valid_points ← np_take qv in_bounds;
  (* convert 3D coords to the flattened coordinate *)
  mask_inds ← mapM (λ q, ravel_multi_index q (shape mask)) valid_points;
  (* further trim down valid points by mask value *)
  let mask := flatten mask in
  mask_vals ← np_take mask mask_inds;
  let valid_mask_points := np_where (map (λ b, eqb b true) mask_vals) in
  (* add 1 to indices where we want to keep points *)
  targets ← np_take in_bounds valid_mask_points;
  np_put filt targets 1.

(** ** The target filter: [build_tgt_points_filter] *)

(** A plane [P], of shape (4,1). *)
Definition plane : Type := Q * Q * Q * Q.

(** One entry of [Pt @ points] after the row of ones is appended. *)
Definition plane_prod (P : plane) (p : point) : Q :=
  let '(a, b, c, d) := P in
  let '(x, y, z) := p in
  (a * x + b * y + c * z + d * 1)%Q.

Definition Qgtb (x y : Q) : bool := negb (Qle_bool x y).

Definition build_tgt_points_filter (points : list point) (P : plane) : list Z :=
  let plane_prod := map (plane_prod P) points in
  (* get all valid points *)
  map (λ v, if Qgtb v 0 then 1 else 0) plane_prod.

(** ** Floats that are not numbers *)

(** A [float64] result: a number, or one of the values numpy produces
    (with a [RuntimeWarning] only) where the number is undefined. *)
Inductive npfloat : Type :=
  | Finite (q : Q)
  | NaN
  | PosInf
  | NegInf.

Definition Qsum (l : list Q) : Q := foldr Qplus 0%Q l.

(** [np.mean(a)]: NaN on an empty array. *)
Definition np_mean (a : list Q) : npfloat :=
  match a with
  | [] => NaN
  | _ => Finite (Qsum a / inject_Z (Z.of_nat (length a)))
  end.

(** Element-wise [x / y] of float arrays: never raises. *)
Definition np_divide (x y : Q) : npfloat :=
  if Qeq_bool y 0 then
    match Qcompare x 0 with
    | Eq => NaN
    | Gt => PosInf
    | Lt => NegInf
    end
  else Finite (x / y).

(** [a / b] on Python ints: true division. *)
Definition py_truediv (a b : nat) : outcome Q :=
  match b with
  | O => Raised ZeroDivisionError
  | S _ => Returned (inject_Z (Z.of_nat a) / inject_Z (Z.of_nat b))%Q
  end.

(** [np.linspace(start, stop, num=num)]. *)
Definition np_linspace (start stop : Q) (num : nat) : list Q :=
  let step := ((stop - start) / inject_Z (Z.of_nat (num - 1)))%Q in
  map (λ i, (inject_Z (Z.of_nat i) * step + start)%Q) (seq 0 num).

(** ** The valid index set (lines 90-93 and 97-100) *)

(** The outlier cutoff, [md = 20]. *)
Definition md : Q := 20.

Definition valid_index_set (filt : list Z) (dists : list Q) : gset nat :=
  let valid_inds : gset nat := list_to_set (np_where (map (λ f, f =? 1) filt)) in
  let valid_dists : gset nat := list_to_set (np_where (map (λ d, Qle_bool d md) dists)) in
  (* valid_inds.intersection_update(valid_dists) *)
  valid_inds ∩ valid_dists.

(** An index array and its dtype.  [np.asarray] of a list of integers is an
    integer array, but of the empty list it is an empty [float64] array. *)
Inductive index_array : Type :=
  | IntArray (idx : list nat)
  | EmptyFloatArray.

Definition np_asarray (l : list nat) : index_array :=
  match l with
  | [] => EmptyFloatArray
  | _ => IntArray l
  end.

Definition indices (idx : index_array) : list nat :=
  match idx with
  | IntArray l => l
  | EmptyFloatArray => []
  end.

(** [a[idx]]: numpy refuses an index array that is neither integer nor
    boolean, empty or not. *)
Definition np_getitem {A} (a : list A) (idx : index_array) : outcome (list A) :=
  match idx with
  | IntArray l => np_take a l
  | EmptyFloatArray => Raised IndexError
  end.

(** [len(np.where(dists <= th)[0]) / len(dists)] (lines 109, 110, 113, 114). *)
Definition fraction_within (dists : list Q) (th : Q) : outcome Q :=
  py_truediv (length (np_where (map (λ d, Qle_bool d th) dists))) (length dists).

(** ** Point clouds as heap objects *)

Definition rgb : Type := Q * Q * Q.

(** An [open3d.geometry.PointCloud]. *)
Record PointCloud : Type := {
  points : list point;
  colors : list rgb
}.

(** References to point-cloud objects, and the heap that holds them. *)
Abbreviation loc := nat (only parsing).
Abbreviation heap := (gmap nat PointCloud) (only parsing).

(** Python code over the heap: a state-and-exception monad. *)
Definition py (A : Type) : Type := heap → outcome A * heap.

#[global] Instance py_ret : MRet py := λ A a σ, (Returned a, σ).
#[global] Instance py_bind : MBind py := λ A B f m σ,
  match m σ with
  | (Returned a, σ') => f a σ'
  | (Raised cls, σ') => (Raised cls, σ')
  end.

(** A computation that does not touch the heap. *)
Definition lift {A} (o : outcome A) : py A := λ σ, (o, σ).

(** Reading the object behind a reference. *)
Definition deref (l : loc) : py PointCloud := λ σ,
  match σ !! l with
  | Some c => (Returned c, σ)
  | None => (Raised "ReferenceError", σ)
  end.

(** A new object, at an address not in use. *)
Definition new_cloud (c : PointCloud) : py loc := λ σ,
  let l := fresh (dom σ) in (Returned l, <[l:=c]> σ).

(** [len(ply.points)] *)
Definition len_points (l : loc) : py nat :=
  c ← deref l; mret (length (points c)).

(** [ply.colors = o3d.utility.Vector3dVector(colors)] *)
Definition set_colors (l : loc) (cs : list rgb) : py unit := λ σ,
  match σ !! l with
  | Some c => (Returned (), <[l:={| points := points c; colors := cs |}]> σ)
  | None => (Raised "ReferenceError", σ)
  end.

(** open3d's [HasColors]. *)
Definition has_colors (c : PointCloud) : bool :=
  negb (bool_decide (points c = [])) &&
  bool_decide (length (colors c) = length (points c)).

(** The entries of [a] whose position satisfies [keep]. *)
Fixpoint select_from {A} (keep : nat → bool) (i : nat) (a : list A) : list A :=
  match a with
  | [] => []
  | x :: a' =>
      if keep i then x :: select_from keep (S i) a' else select_from keep (S i) a'
  end.

(** [ply.select_by_index(idx, invert=invert)]: a new cloud holding, in
    their original order, the points whose index is (or, inverted, is not)
    listed. *)
Definition select_by_index (l : loc) (idx : index_array) (invert : bool) : py loc :=
  c ← deref l;
  let keep i := xorb (bool_decide (i ∈ indices idx)) invert in
  new_cloud {| points := select_from keep 0 (points c);
               colors := if has_colors c then select_from keep 0 (colors c) else [] |}.

(** [a + b] on point clouds: a new cloud, the points of [a] then those of [b]. *)
Definition cloud_add (a b : loc) : py loc :=
  ca ← deref a;
  cb ← deref b;
  new_cloud {| points := points ca ++ points cb;
               colors := if (bool_decide (points ca = []) || has_colors ca) && has_colors cb
                         then colors ca ++ colors cb else [] |}.

(** What [compare_point_clouds] returns. *)
Record comparison : Type := {
  precision_ply : loc;
  recall_ply : loc;
  acc : npfloat;
  comp : npfloat;
  prec : Q;
  rec : Q;
  th_vals : list Q;
  prec_vals : list Q;
  rec_vals : list Q;
  src_size : nat;
  tgt_size : nat
}.

Section compare_clouds.

(** [a.compute_point_cloud_distance(b)] on the points of [a] and [b]: for
    each point of [a], its distance to the nearest point of [b]. *)
Variable nearest_distances : list point → list point → list Q.

(** The colormaps [plt.get_cmap("hot_r")] and [plt.get_cmap("winter")]. *)
Variable hot_r winter : npfloat → rgb.

(** [list(s)] on a Python set: its elements, in an order that Python does
    not specify. *)
Variable set_to_list : gset nat → list nat.

(** [np.asarray(list(valid_inds))] (lines 90-93 and 97-100). *)
Definition valid_inds_array (filt : list Z) (dists : list Q) : index_array :=
  np_asarray (set_to_list (valid_index_set filt dists)).

Definition compute_point_cloud_distance (a b : loc) : py (list Q) :=
  ca ← deref a;
  cb ← deref b;
  mret (nearest_distances (points ca) (points cb)).

Definition compare_point_clouds (src_ply tgt_ply : loc) (max_dist : Q)
    (src_filt tgt_filt : list Z) : py comparison :=
  (* compute bi-directional distance between point clouds *)
  dists_src ← compute_point_cloud_distance src_ply tgt_ply;
  let valid_inds_src := valid_inds_array src_filt dists_src in
  dists_src ← lift (np_getitem dists_src valid_inds_src);

  dists_tgt ← compute_point_cloud_distance tgt_ply src_ply;
  let valid_inds_tgt := valid_inds_array tgt_filt dists_tgt in
  dists_tgt ← lift (np_getitem dists_tgt valid_inds_tgt);

  (* compute accuracy and completeness *)
  let acc := np_mean dists_src in
  let comp := np_mean dists_tgt in

  (* measure incremental precision and recall values *)
  let th_vals := np_linspace 0 (3 * max_dist) 50 in
  prec_vals ← lift (mapM (fraction_within dists_src) th_vals);
  rec_vals ← lift (mapM (fraction_within dists_tgt) th_vals);

  (* compute precision and recall for given distance threshold *)
  prec ← lift (fraction_within dists_src max_dist);
  rec ← lift (fraction_within dists_tgt max_dist);

  (* color point cloud for precision *)
  valid_src_ply ← select_by_index src_ply valid_inds_src false;
  src_size ← len_points valid_src_ply;
  set_colors valid_src_ply
    (map (λ d, hot_r (np_divide (Qmin d max_dist) max_dist)) dists_src);;

  (* color invalid points precision *)
  invalid_src_ply ← select_by_index src_ply valid_inds_src true;
  n ← len_points invalid_src_ply;
  set_colors invalid_src_ply (replicate n (winter (Finite 1)));;

  (* color point cloud for recall *)
  valid_tgt_ply ← select_by_index tgt_ply valid_inds_tgt false;
  tgt_size ← len_points valid_tgt_ply;
  set_colors valid_tgt_ply
    (map (λ d, hot_r (np_divide (Qmin d max_dist) max_dist)) dists_tgt);;

  (* color invalid points recall *)
  invalid_tgt_ply ← select_by_index tgt_ply valid_inds_tgt true;
  n ← len_points invalid_tgt_ply;
  set_colors invalid_tgt_ply (replicate n (winter (Finite 1)));;

  precision_ply ← cloud_add valid_src_ply invalid_src_ply;
  recall_ply ← cloud_add valid_tgt_ply invalid_tgt_ply;
  mret {| precision_ply := precision_ply; recall_ply := recall_ply;
          acc := acc; comp := comp; prec := prec; rec := rec;
          th_vals := th_vals; prec_vals := prec_vals; rec_vals := rec_vals;
          src_size := src_size; tgt_size := tgt_size |}.

End compare_clouds.

(** ** Vocabulary of the heap properties *)

(** [extends σ0 L σ]: the heap [σ] holds every object of [σ0] unchanged, and
    the objects at [L] are new ones, allocated since [σ0]. *)
Definition extends (σ0 : heap) (L : list loc) (σ : heap) : Prop :=
  (∀ l c, σ0 !! l = Some c → σ !! l = Some c)
  ∧ Forall (λ l, σ0 !! l = None ∧ is_Some (σ !! l)) L.

(** [triple P m Q E]: run from a heap satisfying [P], the computation [m]
    either returns a value and a heap satisfying [Q], or raises an exception
    whose class and heap satisfy [E]. *)
Definition triple {A} (P : heap → Prop) (m : py A)
    (Q : A → heap → Prop) (E : string → heap → Prop) : Prop :=
  ∀ σ, P σ →
    match m σ with
    | (Returned a, σ') => Q a σ'
    | (Raised cls, σ') => E cls σ'
    end.

(** The fraction of [dists] that is at most [th], as a number. *)
Definition fraction (dists : list Q) (th : Q) : Q :=
  (inject_Z (Z.of_nat (length (np_where (map (λ d, Qle_bool d th) dists))))
   / inject_Z (Z.of_nat (length dists)))%Q.

(** ** Example inputs *)

(** A heap holding a source cloud of two points at address 0 and a target
    cloud of three points at address 1. *)
Definition example_heap : heap :=
  <[1%nat := {| points := [(0, 0, 0); (1, 0, 0); (0, 1, 0)]%Q; colors := [] |}]>
    (<[0%nat := {| points := [(0, 0, 1 # 10); (1, 0, 1 # 2)]%Q; colors := [] |}]> ∅).

(** Distances for the example heap: 0.1 and 0.5 from the source points,
    0.25, 30 and 2 from the target points. *)
Definition example_distances (a b : list point) : list Q :=
  if bool_decide (length a = 2%nat) then [1 # 10; 1 # 2]%Q else [1 # 4; 30; 2]%Q.

(** A grey colormap. *)
Definition example_cmap (x : npfloat) : rgb :=
  match x with
  | Finite q => (q, q, q)
  | _ => (0, 0, 0)%Q
  end.

(** What the specification asks of a comparison with an empty valid set:
    a dedicated [EmptyValidSet] error, or else a returned (sentinel) result. *)
Definition handles_empty_valid_set {A} (o : outcome A) : Prop :=
  o = Raised "EmptyValidSet" ∨ ∃ sentinel, o = Returned sentinel.

(** ** Reading a cloud: [read_point_cloud] *)

(** [s[-k:]]: the last [k] characters of [s], or all of [s] when it is
    shorter. *)
Definition py_suffix (k : nat) (s : string) : string :=
  String.substring (String.length s - k) k s.

Section read_cloud.

(** [o3d.io.read_point_cloud(path)]: the cloud stored in the file (an empty
    cloud, with a warning, when the file cannot be read). *)
Variable o3d_io_read_point_cloud : string → PointCloud.

(** The voxel grid filter behind [ply.voxel_down_sample(voxel_size=size)]. *)
Variable voxel_grid_filter : PointCloud → Q → PointCloud.

(** [ply.voxel_down_sample(voxel_size=size)]: a new, coarser cloud; open3d
    refuses a voxel size that is not positive. *)
Definition voxel_down_sample (ply : loc) (size : Q) : py loc :=
  c ← deref ply;
  if Qle_bool size 0 then lift (Raised "RuntimeError")
  else new_cloud (voxel_grid_filter c size).

(** [read_point_cloud(ply_path, size)], from a heap: the lines printed,
    the outcome and the heap it leaves. *)
Definition read_point_cloud (ply_path : string) (size : Q) (σ : heap)
  : list string * (outcome loc * heap) :=
  if negb (String.eqb (py_suffix 3 ply_path) "ply") then
    ([ply_path +:+ " is not a '.ply' file."], (Raised SystemExit, σ))
  else
    ([], (ply ← new_cloud (o3d_io_read_point_cloud ply_path);
          voxel_down_sample ply size) σ).

End read_cloud.

(** The path names a file of extension [.ply], as the specification has it. *)
Definition has_ply_extension (path : string) : bool :=
  String.eqb (py_suffix 4 path) ".ply".

(** An example reader and an example voxel filter. *)
Definition example_reader (path : string) : PointCloud :=
  {| points := [(0, 0, 0); (1, 0, 0)]%Q; colors := [] |}.

Definition example_filter (c : PointCloud) (size : Q) : PointCloud :=
  {| points := take 1 (points c); colors := [] |}.

(** ** LaTeX figures: [create_subfigures] *)

Definition tab : string := String (Ascii.ascii_of_nat 9) EmptyString.
Definition nl : string := String (Ascii.ascii_of_nat 10) EmptyString.

(** A [for] loop that updates one variable and stops at the first exception. *)
Fixpoint for_each {A S} (body : S → A → outcome S) (s : S) (l : list A)
  : outcome S :=
  match l with
  | [] => Returned s
  | x :: l' => s' ← body s x; for_each body s' l'
  end.

(** [a[n]] on a Python list, for a non-negative [n]. *)
Definition py_index {A} (a : list A) (n : nat) : outcome A :=
  match a !! n with
  | Some x => Returned x
  | None => Raised IndexError
  end.

(** [a[-1]] on a Python list. *)
Definition py_last {A} (a : list A) : outcome A :=
  match last a with
  | Some x => Returned x
  | None => Raised IndexError
  end.

Section latex_figures.

(** The images, and how [str.format] renders one ([{img}]). *)
Variable Image : Type.
Variable format_image : Image → string.

(** How [str.format] renders the width ([{w:.1f}]). *)
Variable format_width : Q → string.

(** The caption and label lines of a subfigure. *)
Definition subfigure_caption (caption label : string) : string :=
  tab +:+ tab +:+ "\caption{" +:+ caption +:+ "}" +:+ nl +:+
  tab +:+ tab +:+ "\label{fig:" +:+ label +:+ "}" +:+ nl +:+
  tab +:+ "\end{subfigure}" +:+ nl +:+ tab +:+ "\hfill" +:+ nl.

(** The text added for one subfigure (lines 14-20). *)
Definition subfigure (width_scale : Q) (img : Image) (caption label : string)
  : string :=
  (tab +:+ "\centering" +:+ nl +:+
   tab +:+ "\begin{subfigure}{" +:+ format_width width_scale +:+ "\textwidth}" +:+ nl +:+
   tab +:+ tab +:+ "\centering" +:+ nl +:+
   tab +:+ tab +:+ "\includegraphics[width=\textwidth]{" +:+ format_image img +:+ "}" +:+ nl)
  +:+ subfigure_caption caption label.

(** The caption and label lines of the figure, and its end (lines 21-23). *)
Definition figure_caption (caption label : string) : string :=
  tab +:+ "\caption{" +:+ caption +:+ "}" +:+ nl +:+
  tab +:+ "\label{fig:" +:+ label +:+ "}" +:+ nl +:+
  "\end{figure}".

Definition create_subfigures (images : list Image) (captions labels : list string)
  : outcome string :=
  let num_sub_figs := length images in
  width_scale ← py_truediv 1 num_sub_figs;
  let figure := "\begin{figure}" +:+ nl in
  figure ← for_each (λ figure n,
              img ← py_index images n;
              caption ← py_index captions n;
              label ← py_index labels n;
              mret (figure +:+ subfigure width_scale img caption label))
            figure (seq 0 num_sub_figs);
  caption ← py_last captions;
  label ← py_last labels;
  mret (figure +:+ figure_caption caption label).

End latex_figures.

(** ** Vocabulary of the further properties *)

(** The filter value of one source point: 1 when its grid index lies in the
    mask grid on a cell that is true. *)
Definition src_point_filter (min_bound : point) (res : Q) (mask : ndarray3)
    (p : point) : Z :=
  if within_shape (shape mask) (quantize min_bound res p)
     && bool_decide (flatten mask !! offset (shape mask) (quantize min_bound res p)
                     = Some true)
  then 1 else 0.

(** The plane seen from the other side. *)
Definition opposite_plane (P : plane) : plane :=
  let '(a, b, c, d) := P in (- a, - b, - c, - d)%Q.

(** [holds σ0 M σ]: the heap [σ] holds every object of [σ0] unchanged, and
    each address listed in [M] is a new one that holds the cloud listed
    with it. *)
Definition holds (σ0 : gmap nat PointCloud) (M : list (nat * PointCloud))
    (σ : gmap nat PointCloud) : Prop :=
  (∀ l c, σ0 !! l = Some c → σ !! l = Some c)
  ∧ NoDup M.*1
  ∧ Forall (λ lc, σ0 !! lc.1 = None ∧ σ !! lc.1 = Some lc.2) M.

Section latex_figures_text.
Variable Image : Type.
Variable format_image : Image → string.
Variable format_width : Q → string.

(** The text of the subfigures, one per image, as long as captions and
    labels last. *)
Fixpoint subfigures (width_scale : Q) (images : list Image)
    (captions labels : list string) : string :=
  match images, captions, labels with
  | img :: images', caption :: captions', label :: labels' =>
      subfigure Image format_image format_width width_scale img caption label
      +:+ subfigures width_scale images' captions' labels'
  | _, _, _ => ""
  end.
End latex_figures_text.

(** ** Showing inliers and outliers: [display_inlier_outlier] *)

(** [ply.paint_uniform_color(color)]: every point gets the colour. *)
Definition paint_uniform_color (l : nat) (color : rgb) : py unit := λ σ,
  match σ !! l with
  | Some c =>
      (Returned (),
       <[l:={| points := points c;
               colors := replicate (length (points c)) color |}]> σ)
  | None => (Raised "ReferenceError", σ)
  end.

(** [display_inlier_outlier(cloud, ind)].  The value returned here is the
    list of geometries handed to [o3d.visualization.draw_geometries]; the
    viewer itself, its window and camera arguments are left out. *)
Definition display_inlier_outlier (cloud : nat) (ind : list nat) : py (list nat) :=
  inlier_cloud ← select_by_index cloud (IntArray ind) false;
  outlier_cloud ← select_by_index cloud (IntArray ind) true;
  paint_uniform_color outlier_cloud (1, 0, 0)%Q;;
  paint_uniform_color inlier_cloud (8 # 10, 8 # 10, 8 # 10)%Q;;
  mret [inlier_cloud; outlier_cloud].

(** * Properties *)

(** ** Arrays *)

Lemma elem_of_np_where_from (cond : list bool) (i j : nat) :
  j ∈ np_where_from i cond ↔ ∃ k, j = (i + k)%nat ∧ cond !! k = Some true.
Proof.
  revert i. induction cond as [|b cond IH]; intros i; simpl.
  - split; [intros H; inversion H | intros (k & _ & H); done].
  - assert (j ∈ np_where_from (S i) cond ↔
            ∃ k, j = (i + S k)%nat ∧ cond !! k = Some true) as IH'.
    { rewrite IH. split; intros (k & -> & Hk); exists k; split; auto; lia. }
    destruct b.
    + rewrite elem_of_cons, IH'. split.
      * intros [-> | (k & -> & Hk)]; [exists 0%nat | exists (S k)]; split; auto; lia.
      * intros ([|k] & -> & Hk); [left; lia | right; exists k; auto].
    + rewrite IH'. split.
      * intros (k & -> & Hk). exists (S k); auto.
      * intros ([|k] & -> & Hk); [done | exists k; auto].
Qed.

Lemma elem_of_np_where (cond : list bool) (j : nat) :
  j ∈ np_where cond ↔ cond !! j = Some true.
Proof.
  unfold np_where. rewrite elem_of_np_where_from. split.
  - intros (k & -> & Hk). done.
  - intros H. exists j. done.
Qed.

Lemma length_np_where_from_mono (P R : list bool) (i : nat) :
  Forall2 (λ p r, p = true → r = true) P R →
  (length (np_where_from i P) ≤ length (np_where_from i R))%nat.
Proof.
  intros H. revert i. induction H as [|p r P R Hpr _ IH]; intros i; simpl.
  - lia.
  - specialize (IH (S i)).
    destruct p, r; simpl; first [lia | discriminate (Hpr eq_refl)].
Qed.

Lemma length_np_where_from_le (cond : list bool) (i : nat) :
  (length (np_where_from i cond) ≤ length cond)%nat.
Proof.
  revert i. induction cond as [|b cond IH]; intros i; simpl; [lia|].
  specialize (IH (S i)). destruct b; simpl; lia.
Qed.

Lemma mapM_Returned {A B} (f : A → outcome B) (l : list A) (k : list B) :
  mapM f l = Returned k ↔ Forall2 (λ x y, f x = Returned y) l k.
Proof.
  revert k. induction l as [|x l IH]; intros k; simpl.
  - split.
    + intros [= <-]. constructor.
    + intros H. inversion H. done.
  - split.
    + destruct (f x) as [y|] eqn:Hx; simpl; [|done].
      destruct (mapM f l) as [k'|] eqn:Hl; simpl; [|done].
      intros [= <-]. constructor; [done|]. by apply IH.
    + intros H. inversion H as [|? y ? k' Hx Hl]; subst.
      apply IH in Hl. rewrite Hx. simpl. rewrite Hl. done.
Qed.

Lemma mapM_Returned_total {A B} (f : A → outcome B) (l : list A) :
  Forall (λ x, ∃ y, f x = Returned y) l → ∃ k, mapM f l = Returned k.
Proof.
  induction 1 as [|x l [y Hy] _ [k Hk]]; simpl.
  - by exists [].
  - exists (y :: k). rewrite Hy. simpl. rewrite Hk. done.
Qed.

Lemma np_take_Returned {A} (a : list A) (idx : list nat) (k : list A) :
  np_take a idx = Returned k ↔ Forall2 (λ i x, a !! i = Some x) idx k.
Proof.
  unfold np_take. rewrite mapM_Returned.
  split; intros H; eapply Forall2_impl; try exact H;
    intros i x; simpl; destruct (a !! i); congruence.
Qed.

Lemma np_take_total {A} (a : list A) (idx : list nat) :
  Forall (λ i, i < length a)%nat idx → ∃ k, np_take a idx = Returned k.
Proof.
  intros H. apply mapM_Returned_total.
  eapply Forall_impl; [exact H|]. intros i Hi. simpl in Hi.
  destruct (lookup_lt_is_Some_2 a i Hi) as [x ->]. by exists x.
Qed.

Lemma length_foldl_insert {A} (idx : list nat) (v : A) (a : list A) :
  length (foldl (λ acc i, <[i:=v]> acc) a idx) = length a.
Proof.
  revert a. induction idx as [|i idx IH]; intros a; simpl; [done|].
  rewrite IH. apply length_insert.
Qed.

Lemma lookup_foldl_insert {A} (idx : list nat) (v : A) (a : list A) (j : nat) :
  (j < length a)%nat →
  foldl (λ acc i, <[i:=v]> acc) a idx !! j
  = if decide (j ∈ idx) then Some v else a !! j.
Proof.
  revert a. induction idx as [|i idx IH]; intros a Hj; simpl.
  - destruct (decide (j ∈ [])) as [H|_]; [inversion H | done].
  - rewrite IH by (by rewrite length_insert).
    destruct (decide (j ∈ idx)) as [Hin|Hin].
    + rewrite decide_True; [done | by right].
    + destruct (decide (i = j)) as [->|Hne].
      * rewrite list_lookup_insert_eq by done.
        rewrite decide_True; [done | by left].
      * rewrite list_lookup_insert_ne by done.
        rewrite decide_False; [done|].
        intros [->|H]%elem_of_cons; done.
Qed.

Lemma np_put_Returned {A} (a : list A) (idx : list nat) (v : A) :
  Forall (λ i, i < length a)%nat idx →
  np_put a idx v = Returned (foldl (λ acc i, <[i:=v]> acc) a idx).
Proof.
  intros H. unfold np_put.
  replace (forallb _ idx) with true; [done|].
  symmetry. apply forallb_forall. intros i Hi.
  apply bool_decide_eq_true. rewrite Forall_forall in H.
  apply H. by apply list_elem_of_In.
Qed.

Lemma outcome_bind_Returned {A B} (f : A → outcome B) (a : A) :
  Returned a ≫= f = f a.
Proof. reflexivity. Qed.

(** ** The source filter *)

Lemma within_shape_true (s0 s1 s2 : nat) (q0 q1 q2 : Z) :
  within_shape (s0, s1, s2) (q0, q1, q2) = true ↔
  (0 ≤ q0 < Z.of_nat s0) ∧ (0 ≤ q1 < Z.of_nat s1) ∧ (0 ≤ q2 < Z.of_nat s2).
Proof.
  unfold within_shape. rewrite !andb_true_iff, !Z.leb_le, !Z.ltb_lt. lia.
Qed.

Lemma within_shape_false (s0 s1 s2 : nat) (q0 q1 q2 : Z) :
  within_shape (s0, s1, s2) (q0, q1, q2) = false ↔
  q0 < 0 ∨ Z.of_nat s0 ≤ q0 ∨ q1 < 0 ∨ Z.of_nat s1 ≤ q1 ∨
  q2 < 0 ∨ Z.of_nat s2 ≤ q2.
Proof.
  rewrite <- not_true_iff_false, within_shape_true. lia.
Qed.

Lemma ravel_multi_index_within (dims : nat * nat * nat) (q : Z * Z * Z) :
  within_shape dims q = true → ravel_multi_index q dims = Returned (offset dims q).
Proof.
  intros H. unfold ravel_multi_index. by rewrite H.
Qed.

Lemma offset_lt (s0 s1 s2 : nat) (q : Z * Z * Z) :
  within_shape (s0, s1, s2) q = true → (offset (s0, s1, s2) q < s0 * s1 * s2)%nat.
Proof.
  destruct q as [[q0 q1] q2]. rewrite within_shape_true. intros (H0 & H1 & H2).
  unfold offset.
  set (d1 := Z.of_nat s1) in *. set (d2 := Z.of_nat s2) in *.
  assert (0 ≤ q0 * (d1 * d2)) by (apply Z.mul_nonneg_nonneg; lia).
  assert (0 ≤ q1 * d2) by (apply Z.mul_nonneg_nonneg; lia).
  assert (q0 * (d1 * d2) ≤ (Z.of_nat s0 - 1) * (d1 * d2))
    by (apply Z.mul_le_mono_nonneg_r; lia).
  assert (q1 * d2 ≤ (d1 - 1) * d2) by (apply Z.mul_le_mono_nonneg_r; lia).
  apply Nat2Z.inj_lt. rewrite Z2Nat.id by lia.
  rewrite !Nat2Z.inj_mul. fold d1 d2. lia.
Qed.

(** The filter that [build_src_points_filter] returns, entry by entry. *)
Lemma build_src_points_filter_run (points : list point) (min_bound : point)
    (res : Q) (mask : ndarray3) :
  ndarray3_wf mask →
  ∃ filt, build_src_points_filter points min_bound res mask = Returned filt
    ∧ length filt = length points
    ∧ ∀ i p, points !! i = Some p →
        filt !! i = Some (if within_shape (shape mask) (quantize min_bound res p)
                             && bool_decide (flatten mask !! offset (shape mask)
                                   (quantize min_bound res p) = Some true)
                          then 1 else 0).
Proof.
  intros Hwf. unfold build_src_points_filter.
  set (qv := map (quantize min_bound res) points).
  set (in_bounds := np_where (map (within_shape (shape mask)) qv)).
  assert (Hib : ∀ i, i ∈ in_bounds ↔
            ∃ q, qv !! i = Some q ∧ within_shape (shape mask) q = true).
  { intros i. unfold in_bounds. rewrite elem_of_np_where, list_lookup_fmap.
    destruct (qv !! i) as [q|]; simpl.
    - split; [intros [= H]; eauto | intros (q' & [= <-] & H); by rewrite H].
    - split; [done | intros (q' & ? & _); done]. }
  (* valid_points = qv[:, in_bounds] *)
  destruct (np_take_total qv in_bounds) as [valid_points Hvp].
  { apply Forall_forall. intros i Hi. apply Hib in Hi as (q & Hq & _).
    by eapply lookup_lt_Some. }
  rewrite Hvp, outcome_bind_Returned. apply np_take_Returned in Hvp.
  assert (Hvp_in : Forall (λ q, within_shape (shape mask) q = true) valid_points).
  { apply Forall_lookup. intros j q Hq.
    destruct (Forall2_lookup_r _ _ _ _ _ Hvp Hq) as (i & Hi & Hqi).
    assert (i ∈ in_bounds) as Hin by (eapply list_elem_of_lookup_2; eauto).
    apply Hib in Hin as (q' & Hq' & Hw). congruence. }
  (* mask_inds *)
  assert (Hmi : mapM (λ q, ravel_multi_index q (shape mask)) valid_points
                = Returned (map (offset (shape mask)) valid_points)).
  { apply mapM_Returned. apply Forall2_fmap_r, Forall_Forall2_diag.
    eapply Forall_impl; [exact Hvp_in|]. intros q Hq.
    by apply ravel_multi_index_within. }
  rewrite Hmi, outcome_bind_Returned.
  (* mask[mask_inds] *)
  destruct (np_take_total (flatten mask) (map (offset (shape mask)) valid_points))
    as [mask_vals Hmv].
  { apply Forall_fmap. eapply Forall_impl; [exact Hvp_in|]. intros q Hq. simpl.
    unfold ndarray3_wf in Hwf. destruct (shape mask) as [[s0 s1] s2].
    rewrite Hwf. by apply offset_lt. }
  rewrite Hmv, outcome_bind_Returned. apply np_take_Returned in Hmv.
  apply Forall2_fmap_l in Hmv.
  set (valid_mask_points := np_where (map (λ b, eqb b true) mask_vals)).
  assert (Hvmp : ∀ j, j ∈ valid_mask_points ↔ mask_vals !! j = Some true).
  { intros j. unfold valid_mask_points.
    rewrite elem_of_np_where, list_lookup_fmap.
    by destruct (mask_vals !! j) as [[]|]. }
  pose proof (Forall2_length _ _ _ Hvp) as Hlen1.
  pose proof (Forall2_length _ _ _ Hmv) as Hlen2.
  (* in_bounds[valid_mask_points] *)
  destruct (np_take_total in_bounds valid_mask_points) as [targets Htg].
  { apply Forall_forall. intros j Hj. apply Hvmp in Hj.
    apply lookup_lt_Some in Hj. lia. }
  rewrite Htg, outcome_bind_Returned. apply np_take_Returned in Htg.
  assert (Htg_in : ∀ i, i ∈ targets ↔
            ∃ q, qv !! i = Some q ∧ within_shape (shape mask) q = true
                 ∧ flatten mask !! offset (shape mask) q = Some true).
  { intros i. split.
    - intros (k & Hk)%list_elem_of_lookup_1.
      destruct (Forall2_lookup_r _ _ _ _ _ Htg Hk) as (j & Hj & Hji).
      assert (j ∈ valid_mask_points) as Hjv by (eapply list_elem_of_lookup_2; eauto).
      apply Hvmp in Hjv.
      destruct (Forall2_lookup_l _ _ _ _ _ Hvp Hji) as (q & Hq & Hqi).
      exists q. split; [done|]. split.
      + eapply Forall_lookup_1 in Hvp_in; eauto.
      + destruct (Forall2_lookup_l _ _ _ _ _ Hmv Hq) as (b & Hb & Hqb).
        congruence.
    - intros (q & Hq & Hw & Hm).
      assert (i ∈ in_bounds) as (j & Hj)%list_elem_of_lookup_1
        by (apply Hib; eauto).
      destruct (Forall2_lookup_l _ _ _ _ _ Hvp Hj) as (q' & Hq' & Hqi).
      assert (q' = q) as -> by congruence.
      destruct (Forall2_lookup_l _ _ _ _ _ Hmv Hq') as (b & Hb & Hqb).
      assert (b = true) as -> by congruence.
      assert (j ∈ valid_mask_points) as (k & Hk)%list_elem_of_lookup_1
        by (by apply Hvmp).
      destruct (Forall2_lookup_l _ _ _ _ _ Htg Hk) as (i' & Hi' & Hji').
      assert (i' = i) as -> by congruence.
      eapply list_elem_of_lookup_2; eauto. }
  (* filt[targets] = 1 *)
  rewrite np_put_Returned.
  2:{ apply Forall_forall. intros i Hi. apply Htg_in in Hi as (q & Hq & _).
      apply lookup_lt_Some in Hq. rewrite length_replicate.
      unfold qv in Hq. by rewrite length_map in Hq. }
  eexists. split; [done|]. split.
  { by rewrite length_foldl_insert, length_replicate. }
  intros i p Hp.
  assert (i < length points)%nat as Hi by (by eapply lookup_lt_Some).
  rewrite lookup_foldl_insert by (by rewrite length_replicate).
  assert (qv !! i = Some (quantize min_bound res p)) as Hqi.
  { unfold qv. by rewrite list_lookup_fmap, Hp. }
  destruct (decide (i ∈ targets)) as [Hin|Hin].
  - apply Htg_in in Hin as (q & Hq & Hw & Hm).
    assert (q = quantize min_bound res p) as -> by congruence.
    rewrite Hw, bool_decide_eq_true_2; done.
  - rewrite lookup_replicate_2 by done.
    destruct (within_shape _ _) eqn:Hw; [|done]. simpl.
    case_bool_decide as Hm; [|done].
    exfalso. apply Hin, Htg_in. eauto.
Qed.

(** C2: [build_src_points_filter] returns a filter aligned with the cloud in
    which a point whose grid index lies outside the mask grid on some axis
    has value 0, and a point whose grid index lies inside has value 1 when
    the mask cell at its C-order offset is true and 0 when it is false.
    (The mask is a well-formed array and the resolution is not zero.) *)
Theorem build_src_points_filter_correct (points : list point)
    (min_bound : point) (res : Q) (mask : ndarray3) :
  ndarray3_wf mask → ¬ (res == 0)%Q →
  ∃ filt, build_src_points_filter points min_bound res mask = Returned filt
    ∧ length filt = length points
    ∧ ∀ i p q0 q1 q2 s0 s1 s2,
        points !! i = Some p →
        quantize min_bound res p = (q0, q1, q2) →
        shape mask = (s0, s1, s2) →
        ((q0 < 0 ∨ Z.of_nat s0 ≤ q0 ∨ q1 < 0 ∨ Z.of_nat s1 ≤ q1
          ∨ q2 < 0 ∨ Z.of_nat s2 ≤ q2) → filt !! i = Some 0)
        ∧ ((0 ≤ q0 < Z.of_nat s0 ∧ 0 ≤ q1 < Z.of_nat s1 ∧ 0 ≤ q2 < Z.of_nat s2) →
           ∃ cell : bool,
             flatten mask !! Z.to_nat (q0 * (Z.of_nat s1 * Z.of_nat s2)
                                       + q1 * Z.of_nat s2 + q2) = Some cell
             ∧ filt !! i = Some (if cell then 1 else 0)).
Proof.
  intros Hwf _.
  destruct (build_src_points_filter_run points min_bound res mask Hwf)
    as (filt & Hrun & Hlen & Hfilt).
  exists filt. split; [done|]. split; [done|].
  intros i p q0 q1 q2 s0 s1 s2 Hp Hq Hs.
  specialize (Hfilt i p Hp). rewrite Hq, Hs in Hfilt. split.
  - intros Hout. apply within_shape_false in Hout. by rewrite Hout in Hfilt.
  - intros Hin. apply within_shape_true in Hin.
    pose proof (offset_lt s0 s1 s2 (q0, q1, q2) Hin) as Hlt.
    unfold ndarray3_wf in Hwf. rewrite Hs in Hwf. rewrite <- Hwf in Hlt.
    destruct (lookup_lt_is_Some_2 _ _ Hlt) as [cell Hcell].
    exists cell. split; [exact Hcell|].
    rewrite Hin, Hcell in Hfilt. simpl in Hfilt.
    destruct cell; [by rewrite bool_decide_eq_true_2 in Hfilt|].
    by rewrite bool_decide_eq_false_2 in Hfilt.
Qed.

Lemma build_src_points_filter_correct_witness :
  ∃ filt,
    build_src_points_filter [(1, 1, 1); (5, 0, 0); (0, 2, 1)]%Q (0, 0, 0)%Q 1
      {| shape := (3, 3, 3)%nat;
         flatten := replicate 13 true ++ replicate 14 false |} = Returned filt
    ∧ length filt = 3%nat
    ∧ ∀ i p q0 q1 q2 s0 s1 s2,
        [(1, 1, 1); (5, 0, 0); (0, 2, 1)]%Q !! i = Some p →
        quantize (0, 0, 0)%Q 1 p = (q0, q1, q2) →
        (3, 3, 3)%nat = (s0, s1, s2) →
        ((q0 < 0 ∨ Z.of_nat s0 ≤ q0 ∨ q1 < 0 ∨ Z.of_nat s1 ≤ q1
          ∨ q2 < 0 ∨ Z.of_nat s2 ≤ q2) → filt !! i = Some 0)
        ∧ ((0 ≤ q0 < Z.of_nat s0 ∧ 0 ≤ q1 < Z.of_nat s1 ∧ 0 ≤ q2 < Z.of_nat s2) →
           ∃ cell : bool,
             (replicate 13 true ++ replicate 14 false)
               !! Z.to_nat (q0 * (Z.of_nat s1 * Z.of_nat s2)
                            + q1 * Z.of_nat s2 + q2) = Some cell
             ∧ filt !! i = Some (if cell then 1 else 0)).
Proof.
  apply (build_src_points_filter_correct
           [(1, 1, 1); (5, 0, 0); (0, 2, 1)]%Q (0, 0, 0)%Q 1
           {| shape := (3, 3, 3)%nat;
              flatten := replicate 13 true ++ replicate 14 false |}).
  - reflexivity.
  - intros H. discriminate H.
Defined.

(** ** The target filter *)



(** ** Rounding *)

Lemma astype_int_inject_Z (z : Z) : astype_int (inject_Z z) = z.
Proof. unfold astype_int. simpl. apply Z.quot_1_r. Qed.

(** The grid index is [np.round] of the biased value. *)
Lemma grid_index_np_round (x : Q) : grid_index x = np_round (x + (1 # 2)).
Proof. unfold grid_index, correct_round. apply astype_int_inject_Z. Qed.

Lemma Qfloor_plus_half (k : Z) : Qfloor (inject_Z k + (1 # 2)) = k.
Proof.
  unfold Qfloor, Qplus, inject_Z. simpl.
  symmetry. apply (Z.div_unique_pos _ _ k 1); lia.
Qed.

(** On an integer the bias makes a tie, which [np.round] sends to the even
    neighbour. *)
Lemma grid_index_inject_Z (k : Z) :
  grid_index (inject_Z k) = if Z.even k then k else k + 1.
Proof.
  rewrite grid_index_np_round. unfold np_round. rewrite Qfloor_plus_half.
  replace (Qcompare (inject_Z k + (1 # 2) - inject_Z k) (1 # 2)) with Eq;
    [done|].
  symmetry. apply Qeq_alt. ring.
Qed.

(** C4: the rounding that computes grid indices is not round half up.  It
    sends 2.5 to 3 and -0.5 to 0, as round half up does, but it sends 1 to 2
    and 2.2 to 3, where [floor(x + 0.5)] is 1 and 2; it sends every odd
    integer to the next integer. *)
Theorem grid_index_not_round_half_up :
  grid_index (5 # 2) = 3 ∧ grid_index (- (1 # 2)) = 0
  ∧ grid_index 1 = 2 ∧ round_half_up 1 = 1
  ∧ grid_index (22 # 10) = 3 ∧ round_half_up (22 # 10) = 2
  ∧ (∀ k : Z, Z.odd k = true →
       grid_index (inject_Z k) = k + 1 ∧ round_half_up (inject_Z k) = k)
  ∧ ¬ (∀ x : Q, grid_index x = round_half_up x).
Proof.
  repeat (split; [reflexivity|]). split.
  - intros k Hodd. split; [|apply Qfloor_plus_half].
    rewrite grid_index_inject_Z, <- Z.negb_odd, Hodd. done.
  - intros H. specialize (H 1%Q). discriminate H.
Qed.

(** ** The valid index set *)

Lemma elem_of_valid_index_set (filt : list Z) (dists : list Q) (i : nat) :
  i ∈ valid_index_set filt dists ↔
  filt !! i = Some 1 ∧ ∃ d, dists !! i = Some d ∧ (d <= md)%Q.
Proof.
  unfold valid_index_set.
  rewrite elem_of_intersection, !elem_of_list_to_set, !elem_of_np_where,
    !list_lookup_fmap.
  split.
  - intros [Hf Hd]. split.
    + destruct (filt !! i) as [f|]; simpl in Hf; [|done].
      injection Hf as Hf. apply Z.eqb_eq in Hf. by subst.
    + destruct (dists !! i) as [d|]; simpl in Hd; [|done].
      injection Hd as Hd. apply Qle_bool_iff in Hd. eauto.
  - intros (-> & d & -> & Hd). simpl. apply Qle_bool_iff in Hd.
    by rewrite Hd.
Qed.

Lemma indices_np_asarray (l : list nat) : indices (np_asarray l) = l.
Proof. by destruct l. Qed.

(** ** Rules for the heap monad *)

Lemma triple_ret {A} (P : heap → Prop) (a : A) Q E :
  (∀ σ, P σ → Q a σ) → triple P (mret a) Q E.
Proof. intros H σ Hσ. by apply H. Qed.

Lemma triple_bind {A B} (P : heap → Prop) (m : py A) (k : A → py B)
    (Q : A → heap → Prop) R E :
  triple P m Q E → (∀ a, triple (Q a) (k a) R E) → triple P (m ≫= k) R E.
Proof.
  intros Hm Hk σ Hσ. specialize (Hm σ Hσ).
  unfold mbind, py_bind. destruct (m σ) as [[a|cls] σ']; [|done].
  by apply Hk.
Qed.

Lemma triple_pure {A} (φ : Prop) (P : heap → Prop) (m : py A) Q E :
  (φ → triple P m Q E) → triple (λ σ, φ ∧ P σ) m Q E.
Proof. intros H σ [Hφ Hσ]. by apply H. Qed.

Lemma triple_weaken {A} (P P' : heap → Prop) (m : py A) Q E :
  (∀ σ, P σ → P' σ) → triple P' m Q E → triple P m Q E.
Proof. intros H Hm σ Hσ. by apply Hm, H. Qed.

Lemma triple_lift {A} (P : heap → Prop) (o : outcome A) Q E :
  (∀ σ, P σ → match o with Returned a => Q a σ | Raised cls => E cls σ end) →
  triple P (lift o) Q E.
Proof. intros H σ Hσ. unfold lift. specialize (H σ Hσ). by destruct o. Qed.

Lemma triple_deref (P : heap → Prop) (l : loc) (c : PointCloud) E :
  (∀ σ, P σ → σ !! l = Some c) →
  triple P (deref l) (λ c' σ, c' = c ∧ P σ) E.
Proof. intros H σ Hσ. unfold deref. by rewrite (H σ Hσ). Qed.

Lemma triple_deref_new (σ0 : heap) (L : list loc) (l : loc) E :
  l ∈ L →
  triple (extends σ0 L) (deref l) (λ _ σ, True ∧ extends σ0 L σ) E.
Proof.
  intros Hl σ Hσ. unfold deref.
  destruct Hσ as [Hold Hnew]. rewrite Forall_forall in Hnew.
  destruct (Hnew l Hl) as [_ [c Hc]]. rewrite Hc.
  split; [done|]. split; [done|]. by apply Forall_forall.
Qed.

Lemma extends_lookup (σ0 : heap) (L : list loc) (l : loc) (c : PointCloud) :
  σ0 !! l = Some c → ∀ σ, extends σ0 L σ → σ !! l = Some c.
Proof. intros Hl σ [Hold _]. by apply Hold. Qed.

Lemma extends_refl (σ0 : heap) : extends σ0 [] σ0.
Proof. split; [done | constructor]. Qed.

Lemma triple_new_cloud (σ0 : heap) (L : list loc) (c : PointCloud) E :
  triple (extends σ0 L) (new_cloud c) (λ l σ, True ∧ extends σ0 (l :: L) σ) E.
Proof.
  intros σ [Hold Hnew]. unfold new_cloud. split; [done|].
  set (l := fresh (dom σ)).
  assert (σ !! l = None) as Hfresh.
  { apply not_elem_of_dom. apply is_fresh. }
  split.
  - intros l' c' Hl'. rewrite lookup_insert_ne; [by apply Hold|].
    intros <-. apply Hold in Hl'. congruence.
  - constructor.
    + split.
      * destruct (σ0 !! l) as [c'|] eqn:Hl; [|done].
        apply Hold in Hl. congruence.
      * rewrite lookup_insert_eq. by eexists.
    + eapply Forall_impl; [exact Hnew|]. intros l' [Hnone [c' Hc']].
      split; [done|]. exists c'. rewrite lookup_insert_ne; [done|].
      intros <-. congruence.
Qed.

Lemma triple_set_colors (σ0 : heap) (L : list loc) (l : loc) (cs : list rgb) E :
  l ∈ L →
  triple (extends σ0 L) (set_colors l cs) (λ _ σ, True ∧ extends σ0 L σ) E.
Proof.
  intros Hl σ [Hold Hnew]. unfold set_colors.
  pose proof Hnew as Hnew'. rewrite Forall_forall in Hnew'.
  destruct (Hnew' l Hl) as [Hnone [c Hc]]. rewrite Hc.
  split; [done|]. split.
  - intros l' c' Hl'. rewrite lookup_insert_ne; [by apply Hold|].
    intros <-. congruence.
  - eapply Forall_impl; [exact Hnew|]. intros l' [Hnone' [c' Hc']].
    split; [done|]. destruct (decide (l = l')) as [<-|Hne].
    + rewrite lookup_insert_eq. by eexists.
    + rewrite lookup_insert_ne by done. by eexists.
Qed.

Lemma triple_len_points (σ0 : heap) (L : list loc) (l : loc) E :
  l ∈ L →
  triple (extends σ0 L) (len_points l) (λ _ σ, True ∧ extends σ0 L σ) E.
Proof.
  intros Hl. unfold len_points. eapply triple_bind.
  - by apply triple_deref_new.
  - intros c. apply triple_pure. intros _. by apply triple_ret.
Qed.

Lemma triple_select_by_index (σ0 : heap) (L : list loc) (l : loc)
    (c : PointCloud) (idx : index_array) (invert : bool) E :
  σ0 !! l = Some c →
  triple (extends σ0 L) (select_by_index l idx invert)
    (λ l' σ, True ∧ extends σ0 (l' :: L) σ) E.
Proof.
  intros Hl. unfold select_by_index. eapply triple_bind.
  - apply triple_deref. by apply extends_lookup.
  - intros c'. apply triple_pure. intros _. apply triple_new_cloud.
Qed.

Lemma triple_cloud_add (σ0 : heap) (L : list loc) (a b : loc) E :
  a ∈ L → b ∈ L →
  triple (extends σ0 L) (cloud_add a b) (λ l σ, True ∧ extends σ0 (l :: L) σ) E.
Proof.
  intros Ha Hb. unfold cloud_add. eapply triple_bind.
  - by apply triple_deref_new.
  - intros ca. apply triple_pure. intros _. eapply triple_bind.
    + by apply triple_deref_new.
    + intros cb. apply triple_pure. intros _. apply triple_new_cloud.
Qed.

Lemma triple_lift_Returned {A B} (P : heap → Prop) (a : A) (k : A → py B) Q E :
  triple P (k a) Q E → triple P (lift (Returned a) ≫= k) Q E.
Proof. intros H σ Hσ. exact (H σ Hσ). Qed.

Lemma triple_lift_Raised {A B} (P : heap → Prop) (cls : string)
    (k : A → py B) Q (E : string → heap → Prop) :
  (∀ σ, P σ → E cls σ) → triple P (lift (Raised cls) ≫= k) Q E.
Proof. intros H σ Hσ. exact (H σ Hσ). Qed.

(** ** The fraction of distances within a threshold *)

Lemma fraction_within_Returned (dists : list Q) (th : Q) :
  dists ≠ [] → fraction_within dists th = Returned (fraction dists th).
Proof. intros H. unfold fraction_within, fraction. by destruct dists. Qed.

Lemma mapM_fraction_within (dists : list Q) (ths : list Q) :
  dists ≠ [] →
  mapM (fraction_within dists) ths = Returned (map (fraction dists) ths).
Proof.
  intros H. apply mapM_Returned, Forall2_fmap_r, Forall_Forall2_diag.
  apply Forall_forall. intros th _. by apply fraction_within_Returned.
Qed.

(** ** The threshold sweep *)

Lemma length_np_linspace (start stop : Q) (num : nat) :
  length (np_linspace start stop num) = num.
Proof. unfold np_linspace. by rewrite length_map, length_seq. Qed.

Lemma lookup_np_linspace (start stop : Q) (num i : nat) (t : Q) :
  np_linspace start stop num !! i = Some t →
  (i < num)%nat
  ∧ t = (inject_Z (Z.of_nat i) * ((stop - start) / inject_Z (Z.of_nat (num - 1)))
         + start)%Q.
Proof.
  unfold np_linspace. rewrite list_lookup_fmap. intros H.
  destruct (seq 0 num !! i) as [k|] eqn:Hk; [|done].
  apply lookup_seq in Hk as [-> Hlt]. simpl in H. injection H as <-. done.
Qed.

Lemma fraction_mono (dists : list Q) (t1 t2 : Q) :
  (t1 <= t2)%Q → (fraction dists t1 <= fraction dists t2)%Q.
Proof.
  intros Ht. unfold fraction, Qdiv. apply Qmult_le_compat_r.
  - rewrite <- Zle_Qle. apply Nat2Z.inj_le. unfold np_where.
    apply length_np_where_from_mono.
    apply Forall2_fmap, Forall_Forall2_diag, Forall_forall.
    intros d _ Hd. apply Qle_bool_iff in Hd. apply Qle_bool_iff.
    by apply (Qle_trans _ t1).
  - apply Qinv_le_0_compat. rewrite <- (Zle_Qle 0). lia.
Qed.

Lemma np_linspace_mono (stop : Q) (num i j : nat) (ti tj : Q) :
  (0 <= stop)%Q → (i ≤ j)%nat →
  np_linspace 0 stop num !! i = Some ti →
  np_linspace 0 stop num !! j = Some tj →
  (ti <= tj)%Q.
Proof.
  intros Hstop Hij [_ ->]%lookup_np_linspace [_ ->]%lookup_np_linspace.
  apply Qplus_le_l. apply Qmult_le_compat_r.
  - rewrite <- Zle_Qle. lia.
  - unfold Qdiv. apply Qmult_le_0_compat.
    + unfold Qminus. by rewrite Qplus_0_r.
    + apply Qinv_le_0_compat. rewrite <- (Zle_Qle 0). lia.
Qed.

Section compare_clouds_properties.

Variable nearest_distances : list point → list point → list Q.
Variable hot_r winter : npfloat → rgb.
Variable set_to_list : gset nat → list nat.

(** Whatever its order, the listing of a set holds each element once. *)
Hypothesis set_to_list_perm : ∀ X : gset nat, set_to_list X ≡ₚ elements X.

(** Indexing the distances by the valid indices either fails, when there is
    no valid index, or yields their distances, of which there is one at
    least. *)
Lemma np_getitem_valid (filt : list Z) (dists : list Q) :
  (valid_index_set filt dists = ∅
   ∧ np_getitem dists (valid_inds_array set_to_list filt dists) = Raised IndexError)
  ∨ (valid_index_set filt dists ≠ ∅
     ∧ ∃ vs, np_getitem dists (valid_inds_array set_to_list filt dists) = Returned vs
        ∧ vs ≠ []
        ∧ Forall2 (λ i d, dists !! i = Some d)
            (set_to_list (valid_index_set filt dists)) vs).
Proof.
  unfold valid_inds_array.
  pose proof (set_to_list_perm (valid_index_set filt dists)) as Hperm.
  destruct (set_to_list (valid_index_set filt dists)) as [|i l] eqn:Hel.
  - left. split; [|done]. symmetry in Hperm.
    by apply Permutation_nil_r, elements_empty_inv, leibniz_equiv in Hperm.
  - right. split.
    { intros H. rewrite H, elements_empty in Hperm.
      by apply Permutation_nil_r in Hperm. }
    simpl. destruct (np_take_total dists (i :: l)) as [vs Hvs].
    { apply Forall_forall. intros j Hj. rewrite Hperm in Hj.
      apply elem_of_elements, elem_of_valid_index_set in Hj
        as (_ & d & Hd & _).
      by eapply lookup_lt_Some. }
    exists vs. split; [done|]. apply np_take_Returned in Hvs.
    split; [|done]. intros ->. inversion Hvs.
Qed.


Lemma triple_compute_point_cloud_distance (P : heap → Prop) (a b : loc)
    (ca cb : PointCloud) E :
  (∀ σ, P σ → σ !! a = Some ca) → (∀ σ, P σ → σ !! b = Some cb) →
  triple P (compute_point_cloud_distance nearest_distances a b)
    (λ d σ, d = nearest_distances (points ca) (points cb) ∧ P σ) E.
Proof.
  intros Ha Hb. unfold compute_point_cloud_distance. eapply triple_bind.
  - by apply triple_deref.
  - intros ca'. apply triple_pure. intros ->. eapply triple_bind.
    + by apply triple_deref.
    + intros cb'. apply triple_pure. intros ->. by apply triple_ret.
Qed.

(** What a call of [compare_point_clouds] does, from a heap [σ0] that holds
    the two clouds: it raises [IndexError], leaving the heap as it is, when
    one side has no valid index; otherwise it returns the metrics of the
    valid distances [vs] and [vt], in a heap that keeps every object of
    [σ0]. *)
Lemma compare_point_clouds_triple (σ0 : heap) (src_ply tgt_ply : loc)
    (csrc ctgt : PointCloud) (max_dist : Q) (src_filt tgt_filt : list Z) :
  σ0 !! src_ply = Some csrc → σ0 !! tgt_ply = Some ctgt →
  let ds := nearest_distances (points csrc) (points ctgt) in
  let dt := nearest_distances (points ctgt) (points csrc) in
  triple (λ σ, σ = σ0)
    (compare_point_clouds nearest_distances hot_r winter set_to_list src_ply tgt_ply
       max_dist src_filt tgt_filt)
    (λ r σ, extends σ0 [precision_ply r; recall_ply r] σ
        ∧ ∃ vs vt,
            np_getitem ds (valid_inds_array set_to_list src_filt ds) = Returned vs
            ∧ np_getitem dt (valid_inds_array set_to_list tgt_filt dt) = Returned vt
            ∧ acc r = np_mean vs ∧ comp r = np_mean vt
            ∧ prec r = fraction vs max_dist ∧ rec r = fraction vt max_dist
            ∧ th_vals r = np_linspace 0 (3 * max_dist) 50
            ∧ prec_vals r = map (fraction vs) (th_vals r)
            ∧ rec_vals r = map (fraction vt) (th_vals r))
    (λ cls σ, σ = σ0 ∧ cls = IndexError
        ∧ (valid_index_set src_filt ds = ∅ ∨ valid_index_set tgt_filt dt = ∅)).
Proof.
  intros Hsrc Htgt ds dt. unfold compare_point_clouds.
  (* the distances of the source side *)
  eapply triple_bind.
  { apply (triple_compute_point_cloud_distance _ _ _ csrc ctgt); by intros σ ->. }
  intros ? . apply triple_pure. intros ->. fold ds.
  destruct (np_getitem_valid src_filt ds)
    as [[Hes Hgs] | (_ & vs & Hgs & Hvs & _)]; rewrite Hgs.
  { apply triple_lift_Raised. intros σ ->. auto. }
  apply triple_lift_Returned.
  (* the distances of the target side *)
  eapply triple_bind.
  { apply (triple_compute_point_cloud_distance _ _ _ ctgt csrc); by intros σ ->. }
  intros ? . apply triple_pure. intros ->. fold dt.
  destruct (np_getitem_valid tgt_filt dt)
    as [[Het Hgt] | (_ & vt & Hgt & Hvt & _)]; rewrite Hgt.
  { apply triple_lift_Raised. intros σ ->. auto. }
  apply triple_lift_Returned.
  (* the metrics *)
  rewrite !mapM_fraction_within by done. do 2 apply triple_lift_Returned.
  rewrite !fraction_within_Returned by done. do 2 apply triple_lift_Returned.
  (* the diagnostic clouds *)
  apply (triple_weaken _ (extends σ0 [])).
  { intros σ ->. apply extends_refl. }
  eapply triple_bind; [by eapply triple_select_by_index|].
  intros valid_src_ply. apply triple_pure. intros _.
  eapply triple_bind; [apply triple_len_points; set_solver|].
  intros src_size. apply triple_pure. intros _.
  eapply triple_bind; [apply triple_set_colors; set_solver|].
  intros []. apply triple_pure. intros _.
  eapply triple_bind; [by eapply triple_select_by_index|].
  intros invalid_src_ply. apply triple_pure. intros _.
  eapply triple_bind; [apply triple_len_points; set_solver|].
  intros n_src. apply triple_pure. intros _.
  eapply triple_bind; [apply triple_set_colors; set_solver|].
  intros []. apply triple_pure. intros _.
  eapply triple_bind; [by eapply triple_select_by_index|].
  intros valid_tgt_ply. apply triple_pure. intros _.
  eapply triple_bind; [apply triple_len_points; set_solver|].
  intros tgt_size. apply triple_pure. intros _.
  eapply triple_bind; [apply triple_set_colors; set_solver|].
  intros []. apply triple_pure. intros _.
  eapply triple_bind; [by eapply triple_select_by_index|].
  intros invalid_tgt_ply. apply triple_pure. intros _.
  eapply triple_bind; [apply triple_len_points; set_solver|].
  intros n_tgt. apply triple_pure. intros _.
  eapply triple_bind; [apply triple_set_colors; set_solver|].
  intros []. apply triple_pure. intros _.
  eapply triple_bind; [apply triple_cloud_add; set_solver|].
  intros precision_ply. apply triple_pure. intros _.
  eapply triple_bind; [apply triple_cloud_add; set_solver|].
  intros recall_ply. apply triple_pure. intros _.
  apply triple_ret. intros σ [Hold Hnew]. split.
  { split; [done|]. simpl.
    apply Forall_cons in Hnew as [Hrecall Hnew].
    apply Forall_cons in Hnew as [Hprecision _].
    constructor; [done|]. constructor; [done|]. constructor. }
  exists vs, vt. simpl. done.
Qed.

(** Running the comparison from a heap that holds both clouds. *)
Lemma compare_point_clouds_run (σ : heap) (src_ply tgt_ply : loc)
    (csrc ctgt : PointCloud) (max_dist : Q) (src_filt tgt_filt : list Z) :
  σ !! src_ply = Some csrc → σ !! tgt_ply = Some ctgt →
  let ds := nearest_distances (points csrc) (points ctgt) in
  let dt := nearest_distances (points ctgt) (points csrc) in
  (compare_point_clouds nearest_distances hot_r winter set_to_list src_ply
     tgt_ply max_dist src_filt tgt_filt σ = (Raised IndexError, σ)
   ∧ (valid_index_set src_filt ds = ∅ ∨ valid_index_set tgt_filt dt = ∅))
  ∨ (∃ r σ' vs vt,
       compare_point_clouds nearest_distances hot_r winter set_to_list src_ply
         tgt_ply max_dist src_filt tgt_filt σ = (Returned r, σ')
       ∧ valid_index_set src_filt ds ≠ ∅ ∧ valid_index_set tgt_filt dt ≠ ∅
       ∧ extends σ [precision_ply r; recall_ply r] σ'
       ∧ np_getitem ds (valid_inds_array set_to_list src_filt ds) = Returned vs
       ∧ np_getitem dt (valid_inds_array set_to_list tgt_filt dt) = Returned vt
       ∧ acc r = np_mean vs ∧ comp r = np_mean vt
       ∧ prec r = fraction vs max_dist ∧ rec r = fraction vt max_dist
       ∧ th_vals r = np_linspace 0 (3 * max_dist) 50
       ∧ prec_vals r = map (fraction vs) (th_vals r)
       ∧ rec_vals r = map (fraction vt) (th_vals r)).
Proof.
  intros Hsrc Htgt ds dt.
  pose proof (compare_point_clouds_triple σ src_ply tgt_ply csrc ctgt max_dist
                src_filt tgt_filt Hsrc Htgt σ eq_refl) as H.
  fold ds dt in H.
  destruct (compare_point_clouds _ _ _ _ _ _ _ _ _ σ) as [[r|cls] σ'].
  - right. destruct H as (Hext & vs & vt & Hgs & Hgt & Hrest).
    exists r, σ', vs, vt. split; [done|].
    destruct (np_getitem_valid src_filt ds) as [[_ Hs] | [Hs _]];
      [congruence|].
    destruct (np_getitem_valid tgt_filt dt) as [[_ Ht] | [Ht _]];
      [congruence|].
    done.
  - left. destruct H as (-> & -> & Hempty). done.
Qed.

(** C5, as the code has it: when one side has no valid point,
    [compare_point_clouds] raises [IndexError] (the distances are indexed by
    an empty array of floats) and leaves the heap as it is; it returns no
    result, so no mean of nothing reaches the report, but the error is not
    a dedicated one. *)
Theorem compare_point_clouds_empty_valid_set (σ : heap) (src_ply tgt_ply : loc)
    (csrc ctgt : PointCloud) (max_dist : Q) (src_filt tgt_filt : list Z) :
  σ !! src_ply = Some csrc → σ !! tgt_ply = Some ctgt →
  valid_index_set src_filt (nearest_distances (points csrc) (points ctgt)) = ∅
  ∨ valid_index_set tgt_filt (nearest_distances (points ctgt) (points csrc)) = ∅ →
  compare_point_clouds nearest_distances hot_r winter set_to_list src_ply
    tgt_ply max_dist src_filt tgt_filt σ = (Raised IndexError, σ).
Proof.
  intros Hsrc Htgt Hempty.
  destruct (compare_point_clouds_run σ src_ply tgt_ply csrc ctgt max_dist
              src_filt tgt_filt Hsrc Htgt)
    as [[Hrun _] | (r & σ' & vs & vt & _ & Hs & Ht & _)]; [done|].
  by destruct Hempty.
Qed.

(** C6: with a valid point on each side, the sweep has exactly 50
    thresholds, the i-th being [i * (3 * max_dist) / 49], and along it the
    precision curve and the recall curve never decrease as the threshold
    grows; for a non-negative [max_dist] they never decrease along the
    arrays. *)
Theorem threshold_sweep_monotone (σ : heap) (src_ply tgt_ply : loc)
    (csrc ctgt : PointCloud) (max_dist : Q) (src_filt tgt_filt : list Z) :
  σ !! src_ply = Some csrc → σ !! tgt_ply = Some ctgt →
  valid_index_set src_filt (nearest_distances (points csrc) (points ctgt)) ≠ ∅ →
  valid_index_set tgt_filt (nearest_distances (points ctgt) (points csrc)) ≠ ∅ →
  ∃ r σ',
    compare_point_clouds nearest_distances hot_r winter set_to_list src_ply
      tgt_ply max_dist src_filt tgt_filt σ = (Returned r, σ')
    ∧ length (th_vals r) = 50%nat
    ∧ length (prec_vals r) = 50%nat ∧ length (rec_vals r) = 50%nat
    ∧ (∀ i t, th_vals r !! i = Some t →
         (t == inject_Z (Z.of_nat i) * (3 * max_dist) / 49)%Q)
    ∧ (∃ t0 t49, th_vals r !! 0%nat = Some t0 ∧ th_vals r !! 49%nat = Some t49
         ∧ (t0 == 0)%Q ∧ (t49 == 3 * max_dist)%Q)
    ∧ (∀ i j ti tj pi pj ri rj,
         th_vals r !! i = Some ti → th_vals r !! j = Some tj →
         prec_vals r !! i = Some pi → prec_vals r !! j = Some pj →
         rec_vals r !! i = Some ri → rec_vals r !! j = Some rj →
         (ti <= tj)%Q → (pi <= pj)%Q ∧ (ri <= rj)%Q)
    ∧ ((0 <= max_dist)%Q →
       ∀ i j pi pj ri rj, (i ≤ j)%nat →
         prec_vals r !! i = Some pi → prec_vals r !! j = Some pj →
         rec_vals r !! i = Some ri → rec_vals r !! j = Some rj →
         (pi <= pj)%Q ∧ (ri <= rj)%Q).
Proof.
  intros Hsrc Htgt Hs Ht.
  destruct (compare_point_clouds_run σ src_ply tgt_ply csrc ctgt max_dist
              src_filt tgt_filt Hsrc Htgt)
    as [[_ [He|He]] | (r & σ' & vs & vt & Hrun & _ & _ & _ & _ & _ & _ & _
                       & _ & _ & Hth & Hpv & Hrv)]; [done..|].
  exists r, σ'. split; [done|].
  assert (length (th_vals r) = 50%nat) as Hlen
    by (by rewrite Hth, length_np_linspace).
  split; [done|]. split; [by rewrite Hpv, length_map|].
  split; [by rewrite Hrv, length_map|].
  assert (Hspaced : ∀ i t, th_vals r !! i = Some t →
            (t == inject_Z (Z.of_nat i) * (3 * max_dist) / 49)%Q).
  { intros i t Hi. rewrite Hth in Hi.
    apply lookup_np_linspace in Hi as [_ ->]. simpl.
    change (inject_Z 49) with 49%Q. field. }
  assert (Hcurves : ∀ i j ti tj pi pj ri rj,
            th_vals r !! i = Some ti → th_vals r !! j = Some tj →
            prec_vals r !! i = Some pi → prec_vals r !! j = Some pj →
            rec_vals r !! i = Some ri → rec_vals r !! j = Some rj →
            (ti <= tj)%Q → (pi <= pj)%Q ∧ (ri <= rj)%Q).
  { intros i j ti tj pi pj ri rj Hti Htj Hpi Hpj Hri Hrj Hle.
    rewrite Hpv, list_lookup_fmap, Hti in Hpi.
    rewrite Hpv, list_lookup_fmap, Htj in Hpj.
    rewrite Hrv, list_lookup_fmap, Hti in Hri.
    rewrite Hrv, list_lookup_fmap, Htj in Hrj.
    simpl in *. injection Hpi as <-. injection Hpj as <-.
    injection Hri as <-. injection Hrj as <-.
    split; by apply fraction_mono. }
  split; [done|]. split.
  { destruct (lookup_lt_is_Some_2 (th_vals r) 0) as [t0 H0]; [lia|].
    destruct (lookup_lt_is_Some_2 (th_vals r) 49) as [t49 H49]; [lia|].
    exists t0, t49. split; [done|]. split; [done|].
    rewrite (Hspaced _ _ H0), (Hspaced _ _ H49). split; simpl; field. }
  split; [done|].
  intros Hmd i j pi pj ri rj Hij Hpi Hpj Hri Hrj.
  assert (i < 50)%nat as Hi.
  { apply lookup_lt_Some in Hpi. by rewrite Hpv, length_map, Hlen in Hpi. }
  assert (j < 50)%nat as Hj.
  { apply lookup_lt_Some in Hpj. by rewrite Hpv, length_map, Hlen in Hpj. }
  destruct (lookup_lt_is_Some_2 (th_vals r) i) as [ti Hti]; [lia|].
  destruct (lookup_lt_is_Some_2 (th_vals r) j) as [tj Htj]; [lia|].
  apply (Hcurves i j ti tj); try done.
  rewrite Hth in Hti, Htj.
  apply (np_linspace_mono (3 * max_dist) 50 i j); try done.
  apply Qmult_le_0_compat; [done | exact Hmd].
Qed.



(** C9: [compare_point_clouds] leaves its input clouds, and every other
    object that existed before the call, as they were; the two diagnostic
    clouds it returns are new objects. *)
Theorem compare_point_clouds_preserves_inputs (σ : heap) (src_ply tgt_ply : loc)
    (csrc ctgt : PointCloud) (max_dist : Q) (src_filt tgt_filt : list Z) :
  σ !! src_ply = Some csrc → σ !! tgt_ply = Some ctgt →
  ∃ o σ',
    compare_point_clouds nearest_distances hot_r winter set_to_list src_ply
      tgt_ply max_dist src_filt tgt_filt σ = (o, σ')
    ∧ σ' !! src_ply = Some csrc ∧ σ' !! tgt_ply = Some ctgt
    ∧ (∀ l c, σ !! l = Some c → σ' !! l = Some c)
    ∧ (∀ r, o = Returned r →
         σ !! precision_ply r = None ∧ σ !! recall_ply r = None
         ∧ is_Some (σ' !! precision_ply r) ∧ is_Some (σ' !! recall_ply r)).
Proof.
  intros Hsrc Htgt.
  destruct (compare_point_clouds_run σ src_ply tgt_ply csrc ctgt max_dist
              src_filt tgt_filt Hsrc Htgt)
    as [[Hrun _] | (r & σ' & vs & vt & Hrun & _ & _ & [Hold Hnew] & _)].
  - exists (Raised IndexError), σ. split; [done|]. do 3 (split; [done|]).
    intros r [=].
  - exists (Returned r), σ'. split; [done|].
    split; [by apply Hold|]. split; [by apply Hold|]. split; [done|].
    intros r' [= <-].
    apply Forall_cons in Hnew as [[Hp1 Hp2] Hnew].
    apply Forall_cons in Hnew as [[Hr1 Hr2] _]. done.
Qed.

End compare_clouds_properties.

(** ** The properties on the example inputs *)


Lemma compare_point_clouds_empty_valid_set_witness :
  compare_point_clouds example_distances example_cmap example_cmap elements
    0%nat 1%nat (4 # 10) [0; 0] [1; 1; 1] example_heap
  = (Raised IndexError, example_heap).
Proof.
  apply (compare_point_clouds_empty_valid_set example_distances example_cmap
           example_cmap elements (λ X, Permutation_refl (elements X))
           example_heap 0%nat 1%nat
           {| points := [(0, 0, 1 # 10); (1, 0, 1 # 2)]%Q; colors := [] |}
           {| points := [(0, 0, 0); (1, 0, 0); (0, 1, 0)]%Q; colors := [] |}).
  - reflexivity.
  - reflexivity.
  - left. vm_compute. reflexivity.
Defined.

(** C5, as the specification words it, fails: on the example heap with a
    source filter that is 0 throughout, the source side has no valid point,
    and the call ends in an [IndexError]: neither an [EmptyValidSet] error
    nor a returned result. *)
Lemma compare_point_clouds_empty_not_handled :
  valid_index_set [0; 0] (example_distances
      [(0, 0, 1 # 10); (1, 0, 1 # 2)]%Q [(0, 0, 0); (1, 0, 0); (0, 1, 0)]%Q) = ∅
  ∧ fst (compare_point_clouds example_distances example_cmap example_cmap
           elements 0%nat 1%nat (4 # 10) [0; 0] [1; 1; 1] example_heap)
    = Raised "IndexError"
  ∧ ¬ handles_empty_valid_set
        (fst (compare_point_clouds example_distances example_cmap example_cmap
                elements 0%nat 1%nat (4 # 10) [0; 0] [1; 1; 1] example_heap)).
Proof.
  assert (fst (compare_point_clouds example_distances example_cmap example_cmap
                 elements 0%nat 1%nat (4 # 10) [0; 0] [1; 1; 1] example_heap)
          = Raised "IndexError") as Hrun by (vm_compute; reflexivity).
  split; [vm_compute; reflexivity|]. split; [exact Hrun|].
  rewrite Hrun. intros [H | [sentinel H]]; discriminate H.
Qed.

Lemma threshold_sweep_monotone_witness :
  ∃ r σ',
    compare_point_clouds example_distances example_cmap example_cmap elements
      0%nat 1%nat (4 # 10) [1; 1] [1; 1; 1] example_heap = (Returned r, σ')
    ∧ length (th_vals r) = 50%nat
    ∧ length (prec_vals r) = 50%nat ∧ length (rec_vals r) = 50%nat.
Proof.
  destruct (threshold_sweep_monotone example_distances example_cmap
              example_cmap elements (λ X, Permutation_refl (elements X))
              example_heap 0%nat 1%nat
              {| points := [(0, 0, 1 # 10); (1, 0, 1 # 2)]%Q; colors := [] |}
              {| points := [(0, 0, 0); (1, 0, 0); (0, 1, 0)]%Q; colors := [] |}
              (4 # 10) [1; 1] [1; 1; 1])
    as (r & σ' & Hrun & Hth & Hprec & Hrec & _).
  - reflexivity.
  - reflexivity.
  - vm_compute. discriminate.
  - vm_compute. discriminate.
  - exists r, σ'. auto.
Defined.


Lemma compare_point_clouds_preserves_inputs_witness :
  ∃ o σ',
    compare_point_clouds example_distances example_cmap example_cmap elements
      0%nat 1%nat (4 # 10) [1; 1] [1; 1; 1] example_heap = (o, σ')
    ∧ σ' !! 0%nat
      = Some {| points := [(0, 0, 1 # 10); (1, 0, 1 # 2)]%Q; colors := [] |}
    ∧ σ' !! 1%nat
      = Some {| points := [(0, 0, 0); (1, 0, 0); (0, 1, 0)]%Q; colors := [] |}.
Proof.
  destruct (compare_point_clouds_preserves_inputs example_distances example_cmap
              example_cmap elements (λ X, Permutation_refl (elements X))
              example_heap 0%nat 1%nat
              {| points := [(0, 0, 1 # 10); (1, 0, 1 # 2)]%Q; colors := [] |}
              {| points := [(0, 0, 0); (1, 0, 0); (0, 1, 0)]%Q; colors := [] |}
              (4 # 10) [1; 1] [1; 1; 1])
    as (o & σ' & Hrun & Hsrc & Htgt & _).
  - reflexivity.
  - reflexivity.
  - exists o, σ'. auto.
Defined.

(** ** Reading a cloud *)

Section read_cloud_properties.

Variable o3d_io_read_point_cloud : string → PointCloud.
Variable voxel_grid_filter : PointCloud → Q → PointCloud.

(** C8, as the code has it: [read_point_cloud] exits, before anything is
    loaded, exactly when the last three characters of the path are not
    [ply]; otherwise it loads the cloud, never exits, and for a positive
    voxel size returns the downsampled cloud as a new object. *)
Theorem read_point_cloud_checks_suffix (ply_path : string) (size : Q) (σ : heap) :
  (py_suffix 3 ply_path ≠ "ply" →
     read_point_cloud o3d_io_read_point_cloud voxel_grid_filter ply_path size σ
     = ([ply_path +:+ " is not a '.ply' file."], (Raised SystemExit, σ)))
  ∧ (py_suffix 3 ply_path = "ply" →
     ∃ l o σ',
       read_point_cloud o3d_io_read_point_cloud voxel_grid_filter ply_path size σ
       = ([], (o, σ'))
       ∧ σ !! l = None
       ∧ σ' !! l = Some (o3d_io_read_point_cloud ply_path)
       ∧ o ≠ Raised SystemExit
       ∧ ((0 < size)%Q →
          ∃ l', o = Returned l' ∧ σ !! l' = None
            ∧ σ' !! l' = Some (voxel_grid_filter
                                 (o3d_io_read_point_cloud ply_path) size))).
Proof.
  unfold read_point_cloud. split.
  - intros Hne. apply String.eqb_neq in Hne. by rewrite Hne.
  - intros Heq. apply String.eqb_eq in Heq. rewrite Heq. simpl.
    set (c := o3d_io_read_point_cloud ply_path).
    set (l := fresh (dom σ)).
    assert (σ !! l = None) as Hl by apply not_elem_of_dom, is_fresh.
    unfold mbind, py_bind, new_cloud, voxel_down_sample, deref. fold l.
    unfold mbind, py_bind. rewrite lookup_insert_eq.
    destruct (Qle_bool size 0) eqn:Hsize.
    + exists l, (Raised "RuntimeError"), (<[l:=c]> σ). unfold lift.
      split; [done|]. split; [done|]. split; [by rewrite lookup_insert_eq|].
      split; [done|]. intros Hpos. apply Qle_bool_iff in Hsize.
      exfalso. by apply (Qlt_not_le _ _ Hpos).
    + set (l' := fresh (dom (<[l:=c]> σ))).
      assert (<[l:=c]> σ !! l' = None) as Hl' by apply not_elem_of_dom, is_fresh.
      assert (l' ≠ l) as Hne.
      { intros Heq'. rewrite Heq', lookup_insert_eq in Hl'. done. }
      exists l, (Returned l'), (<[l':=voxel_grid_filter c size]> (<[l:=c]> σ)).
      split; [done|]. split; [done|].
      split; [by rewrite lookup_insert_ne, lookup_insert_eq|].
      split; [done|]. intros _. exists l'. split; [done|].
      split; [by rewrite lookup_insert_ne in Hl'|].
      by rewrite lookup_insert_eq.
Qed.

End read_cloud_properties.

(** C8, as the specification words it, fails: the path [reply] has no
    [.ply] extension, yet [read_point_cloud] does not exit on it: the cloud
    is loaded and downsampled. *)
Lemma read_point_cloud_accepts_reply :
  has_ply_extension "reply" = false
  ∧ fst (snd (read_point_cloud example_reader example_filter "reply" (1 # 5) ∅))
    = Returned 1%nat
  ∧ fst (snd (read_point_cloud example_reader example_filter "reply" (1 # 5) ∅))
    ≠ Raised SystemExit.
Proof.
  split; [reflexivity|].
  assert (fst (snd (read_point_cloud example_reader example_filter "reply"
                      (1 # 5) ∅)) = Returned 1%nat) as Hrun
    by (vm_compute; reflexivity).
  split; [exact Hrun|]. rewrite Hrun. discriminate.
Qed.

(** ** LaTeX figures *)

Lemma append_assoc (a b c : string) : (a +:+ b) +:+ c = a +:+ (b +:+ c).
Proof.
  induction a as [|x a IH]; [done|].
  change (String x ((a +:+ b) +:+ c) = String x (a +:+ (b +:+ c))).
  by rewrite IH.
Qed.

Lemma for_each_app {A S} (body : S → A → outcome S) (s : S) (l1 l2 : list A) :
  for_each body s (l1 ++ l2) = (for_each body s l1 ≫= λ s', for_each body s' l2).
Proof.
  revert s. induction l1 as [|x l1 IH]; intros s; simpl; [done|].
  destruct (body s x) as [s'|cls]; simpl; [apply IH | done].
Qed.

Lemma py_index_Returned {A} (a : list A) (n : nat) :
  (n < length a)%nat → ∃ x, a !! n = Some x ∧ py_index a n = Returned x.
Proof.
  intros Hn. destruct (lookup_lt_is_Some_2 a n Hn) as [x Hx].
  exists x. unfold py_index. by rewrite Hx.
Qed.

Section latex_figures_properties.

Variable Image : Type.
Variable format_image : Image → string.
Variable format_width : Q → string.



End latex_figures_properties.


(** * Further properties *)

(** ** Rounding *)








(** ** The source filter, point by point *)

Lemma build_src_points_filter_map (points : list point) (min_bound : point)
    (res : Q) (mask : ndarray3) :
  ndarray3_wf mask →
  build_src_points_filter points min_bound res mask
  = Returned (map (src_point_filter min_bound res mask) points).
Proof.
  intros Hwf.
  destruct (build_src_points_filter_run points min_bound res mask Hwf)
    as (filt & -> & Hlen & Hfilt).
  f_equal. apply list_eq. intros i. rewrite list_lookup_fmap.
  destruct (points !! i) as [p|] eqn:Hp; simpl.
  - by apply Hfilt.
  - apply lookup_ge_None. rewrite Hlen. by apply lookup_ge_None.
Qed.

(** X3: the source filter is computed point by point: the filter of two
    clouds put end to end is the two filters put end to end. *)
Theorem build_src_points_filter_app (points1 points2 : list point)
    (min_bound : point) (res : Q) (mask : ndarray3) :
  ndarray3_wf mask →
  ∃ filt1 filt2,
    build_src_points_filter points1 min_bound res mask = Returned filt1
    ∧ build_src_points_filter points2 min_bound res mask = Returned filt2
    ∧ build_src_points_filter (points1 ++ points2) min_bound res mask
      = Returned (filt1 ++ filt2).
Proof.
  intros Hwf. rewrite !build_src_points_filter_map by done.
  eexists _, _. split; [done|]. split; [done|]. by rewrite map_app.
Qed.

(** ** The target filter and the opposite plane *)
Lemma Qle_bool_false (x y : Q) : Qle_bool x y = false ↔ (y < x)%Q.
Proof.
  rewrite <- not_true_iff_false, Qle_bool_iff. split.
  - apply Qnot_le_lt.
  - intros Hlt Hle. by apply (Qlt_not_le _ _ Hlt).
Qed.


(** X4: a target point is valid for a plane or for the opposite plane, never
    for both, and for neither exactly when it lies on the plane. *)
Theorem build_tgt_points_filter_opposite (points : list point) (P : plane)
    (i : nat) (p : point) :
  points !! i = Some p →
  ∃ v w,
    build_tgt_points_filter points P !! i = Some v
    ∧ build_tgt_points_filter points (opposite_plane P) !! i = Some w
    ∧ ((0 < plane_prod P p)%Q → v = 1 ∧ w = 0)
    ∧ ((plane_prod P p < 0)%Q → v = 0 ∧ w = 1)
    ∧ ((plane_prod P p == 0)%Q → v = 0 ∧ w = 0).
Proof.
  intros Hp. unfold build_tgt_points_filter.
  rewrite !list_lookup_fmap, Hp. simpl. eexists _, _.
  split; [done|]. split; [done|].
  assert (plane_prod (opposite_plane P) p == - plane_prod P p)%Q as Hopp.
  { destruct P as [[[a b] c] d], p as [[x y] z]. simpl. ring. }
  unfold Qgtb.
  destruct (Qle_bool (plane_prod P p) 0) eqn:H1;
    destruct (Qle_bool (plane_prod (opposite_plane P) p) 0) eqn:H2; simpl;
    first [apply Qle_bool_iff in H1 | apply Qle_bool_false in H1];
    first [apply Qle_bool_iff in H2 | apply Qle_bool_false in H2];
    repeat split; intros; try done; exfalso; lra.
Qed.

(** ** Ranges of the metrics *)
Lemma inject_Z_of_nat_nonneg (n : nat) : (0 <= inject_Z (Z.of_nat n))%Q.
Proof. rewrite <- (Zle_Qle 0). lia. Qed.

Lemma length_np_where_le (cond : list bool) :
  (length (np_where cond) ≤ length cond)%nat.
Proof. apply length_np_where_from_le. Qed.

Lemma fraction_range (dists : list Q) (th : Q) :
  (0 <= fraction dists th)%Q ∧ (fraction dists th <= 1)%Q.
Proof.
  unfold fraction.
  set (k := length (np_where (map (λ d, Qle_bool d th) dists))).
  assert (k ≤ length dists)%nat as Hk.
  { unfold k. etrans; [apply length_np_where_le|]. by rewrite length_map. }
  destruct dists as [|d dists].
  - replace k with 0%nat by (simpl in Hk; lia). by compute.
  - set (n := length (d :: dists)) in *.
    assert (0 < inject_Z (Z.of_nat n))%Q as Hn.
    { rewrite <- (Zlt_Qlt 0). unfold n. simpl. lia. }
    split.
    + apply Qle_shift_div_l; [done|]. rewrite Qmult_0_l.
      apply inject_Z_of_nat_nonneg.
    + apply Qle_shift_div_r; [done|]. rewrite Qmult_1_l.
      rewrite <- Zle_Qle. lia.
Qed.

Lemma length_np_where_from_all (cond : list bool) (i : nat) :
  Forall (λ b, b = true) cond → length (np_where_from i cond) = length cond.
Proof.
  intros H. revert i. induction H as [|b cond -> _ IH]; intros i; simpl; [done|].
  by rewrite IH.
Qed.

Lemma fraction_all_within (dists : list Q) (th : Q) :
  dists ≠ [] → Forall (λ d, (d <= th)%Q) dists → (fraction dists th == 1)%Q.
Proof.
  intros Hne Hall. unfold fraction, np_where.
  rewrite length_np_where_from_all, length_map.
  - apply Qmult_inv_r. intros H.
    assert (inject_Z (Z.of_nat (length dists)) == inject_Z 0)%Q as H' by exact H.
    apply inject_Z_injective in H'. destruct dists; [done | discriminate H'].
  - apply Forall_fmap. eapply Forall_impl; [exact Hall|].
    intros d Hd. simpl. by apply Qle_bool_iff.
Qed.

Lemma Qsum_le_bound (l : list Q) (b : Q) :
  Forall (λ d, (d <= b)%Q) l →
  (Qsum l <= inject_Z (Z.of_nat (length l)) * b)%Q.
Proof.
  induction 1 as [|d l Hd _ IH].
  - change (0 <= 0 * b)%Q. lra.
  - change (d + Qsum l <= inject_Z (Z.of_nat (S (length l))) * b)%Q.
    rewrite Nat2Z.inj_succ, <- Z.add_1_r, inject_Z_plus.
    change (inject_Z 1) with 1%Q. rewrite Qmult_plus_distr_l, Qmult_1_l. lra.
Qed.

Lemma Qsum_nonneg (l : list Q) : Forall (λ d, (0 <= d)%Q) l → (0 <= Qsum l)%Q.
Proof.
  induction 1 as [|d l Hd _ IH].
  - change (0 <= 0)%Q. lra.
  - change (0 <= d + Qsum l)%Q. lra.
Qed.

Lemma np_mean_bounds (l : list Q) (b : Q) :
  l ≠ [] → Forall (λ d, (d <= b)%Q) l →
  ∃ m, np_mean l = Finite m ∧ (m <= b)%Q
       ∧ (Forall (λ d, (0 <= d)%Q) l → (0 <= m)%Q).
Proof.
  intros Hne Hall. destruct l as [|d l]; [done|].
  eexists. split; [reflexivity|].
  set (n := length (d :: l)).
  assert (0 < inject_Z (Z.of_nat n))%Q as Hn.
  { rewrite <- (Zlt_Qlt 0). unfold n. simpl. lia. }
  split.
  - apply Qle_shift_div_r; [done|].
    pose proof (Qsum_le_bound _ _ Hall) as H. fold n in H. lra.
  - intros Hpos. apply Qle_shift_div_l; [done|].
    pose proof (Qsum_nonneg _ Hpos). lra.
Qed.

Section compare_clouds_ranges.

Variable nearest_distances : list point → list point → list Q.
Variable hot_r winter : npfloat → rgb.
Variable set_to_list : gset nat → list nat.
Hypothesis set_to_list_perm : ∀ X : gset nat, set_to_list X ≡ₚ elements X.

(** The distances kept on a side: at least one, each within the cutoff, each
    the distance of a point whose filter entry is 1. *)
Lemma valid_distances (filt : list Z) (dists vs : list Q) :
  np_getitem dists (valid_inds_array set_to_list filt dists) = Returned vs →
  vs ≠ [] ∧ Forall (λ d, (d <= md)%Q) vs ∧ Forall (λ d, d ∈ dists) vs.
Proof.
  intros Hvs.
  destruct (np_getitem_valid set_to_list set_to_list_perm filt dists)
    as [[_ Hraise] | (_ & vs' & Hvs' & Hne & Hall)]; [congruence|].
  assert (vs' = vs) as -> by congruence.
  split; [done|].
  split; apply Forall_forall; intros d (k & Hk)%list_elem_of_lookup_1;
    destruct (Forall2_lookup_r _ _ _ _ _ Hall Hk) as (i & Hi & Hd).
  - assert (i ∈ valid_index_set filt dists) as Hin.
    { apply elem_of_elements. rewrite <- set_to_list_perm.
      eapply list_elem_of_lookup_2; eauto. }
    apply elem_of_valid_index_set in Hin as (_ & d' & Hd' & Hle). congruence.
  - eapply list_elem_of_lookup_2; eauto.
Qed.

(** X5: precision, recall and every entry of the two curves lie between 0
    and 1. *)
Theorem compare_point_clouds_metric_ranges (σ : gmap nat PointCloud)
    (src_ply tgt_ply : nat) (csrc ctgt : PointCloud) (max_dist : Q)
    (src_filt tgt_filt : list Z) :
  σ !! src_ply = Some csrc → σ !! tgt_ply = Some ctgt →
  valid_index_set src_filt (nearest_distances (points csrc) (points ctgt)) ≠ ∅ →
  valid_index_set tgt_filt (nearest_distances (points ctgt) (points csrc)) ≠ ∅ →
  ∃ r σ',
    compare_point_clouds nearest_distances hot_r winter set_to_list src_ply
      tgt_ply max_dist src_filt tgt_filt σ = (Returned r, σ')
    ∧ (0 <= prec r)%Q ∧ (prec r <= 1)%Q ∧ (0 <= rec r)%Q ∧ (rec r <= 1)%Q
    ∧ Forall (λ p, (0 <= p)%Q ∧ (p <= 1)%Q) (prec_vals r)
    ∧ Forall (λ p, (0 <= p)%Q ∧ (p <= 1)%Q) (rec_vals r).
Proof.
  intros Hsrc Htgt Hs Ht.
  destruct (compare_point_clouds_run nearest_distances hot_r winter set_to_list
              set_to_list_perm σ src_ply tgt_ply csrc ctgt max_dist
              src_filt tgt_filt Hsrc Htgt)
    as [[_ [He|He]] | (r & σ' & vs & vt & Hrun & _ & _ & _ & _ & _ & _ & _
                       & Hprec & Hrec & _ & Hpv & Hrv)]; [done..|].
  exists r, σ'. split; [done|]. rewrite Hprec, Hrec, Hpv, Hrv.
  pose proof (fraction_range vs max_dist) as [? ?].
  pose proof (fraction_range vt max_dist) as [? ?].
  do 4 (split; [done|]).
  split; apply Forall_fmap, Forall_forall; intros th _; apply fraction_range.
Qed.

(** X6: accuracy and completeness are numbers (never NaN) of at most 20,
    the outlier cutoff, and are not negative when no distance is. *)
Theorem compare_point_clouds_means_bounded (σ : gmap nat PointCloud)
    (src_ply tgt_ply : nat) (csrc ctgt : PointCloud) (max_dist : Q)
    (src_filt tgt_filt : list Z) :
  σ !! src_ply = Some csrc → σ !! tgt_ply = Some ctgt →
  valid_index_set src_filt (nearest_distances (points csrc) (points ctgt)) ≠ ∅ →
  valid_index_set tgt_filt (nearest_distances (points ctgt) (points csrc)) ≠ ∅ →
  ∃ r σ' a c,
    compare_point_clouds nearest_distances hot_r winter set_to_list src_ply
      tgt_ply max_dist src_filt tgt_filt σ = (Returned r, σ')
    ∧ acc r = Finite a ∧ comp r = Finite c
    ∧ (a <= 20)%Q ∧ (c <= 20)%Q
    ∧ (Forall (λ d, (0 <= d)%Q)
         (nearest_distances (points csrc) (points ctgt)) → (0 <= a)%Q)
    ∧ (Forall (λ d, (0 <= d)%Q)
         (nearest_distances (points ctgt) (points csrc)) → (0 <= c)%Q).
Proof.
  intros Hsrc Htgt Hs Ht.
  destruct (compare_point_clouds_run nearest_distances hot_r winter set_to_list
              set_to_list_perm σ src_ply tgt_ply csrc ctgt max_dist
              src_filt tgt_filt Hsrc Htgt)
    as [[_ [He|He]] | (r & σ' & vs & vt & Hrun & _ & _ & _ & Hgs & Hgt & Hacc
                       & Hcomp & _)]; [done..|].
  apply valid_distances in Hgs as (Hvs & Hvs_le & Hvs_in).
  apply valid_distances in Hgt as (Hvt & Hvt_le & Hvt_in).
  destruct (np_mean_bounds vs md Hvs Hvs_le) as (a & Ha & Hale & Hapos).
  destruct (np_mean_bounds vt md Hvt Hvt_le) as (c & Hc & Hcle & Hcpos).
  exists r, σ', a, c. split; [done|].
  split; [congruence|]. split; [congruence|]. do 2 (split; [done|]).
  split; intros Hpos; [apply Hapos | apply Hcpos];
    (eapply Forall_impl; [eassumption|]); intros d Hd;
    rewrite Forall_forall in Hpos; by apply Hpos.
Qed.

(** X7: with [max_dist] at or above the outlier cutoff, precision and
    recall are both 1. *)
Theorem compare_point_clouds_threshold_above_cutoff (σ : gmap nat PointCloud)
    (src_ply tgt_ply : nat) (csrc ctgt : PointCloud) (max_dist : Q)
    (src_filt tgt_filt : list Z) :
  σ !! src_ply = Some csrc → σ !! tgt_ply = Some ctgt →
  valid_index_set src_filt (nearest_distances (points csrc) (points ctgt)) ≠ ∅ →
  valid_index_set tgt_filt (nearest_distances (points ctgt) (points csrc)) ≠ ∅ →
  (20 <= max_dist)%Q →
  ∃ r σ',
    compare_point_clouds nearest_distances hot_r winter set_to_list src_ply
      tgt_ply max_dist src_filt tgt_filt σ = (Returned r, σ')
    ∧ (prec r == 1)%Q ∧ (rec r == 1)%Q.
Proof.
  intros Hsrc Htgt Hs Ht Hmd.
  destruct (compare_point_clouds_run nearest_distances hot_r winter set_to_list
              set_to_list_perm σ src_ply tgt_ply csrc ctgt max_dist
              src_filt tgt_filt Hsrc Htgt)
    as [[_ [He|He]] | (r & σ' & vs & vt & Hrun & _ & _ & _ & Hgs & Hgt & _
                       & _ & Hprec & Hrec & _)]; [done..|].
  apply valid_distances in Hgs as (Hvs & Hvs_le & _).
  apply valid_distances in Hgt as (Hvt & Hvt_le & _).
  exists r, σ'. split; [done|]. rewrite Hprec, Hrec.
  split; apply fraction_all_within; try done;
    (eapply Forall_impl; [eassumption|]); intros d Hd; simpl in *;
    unfold md in Hd; lra.
Qed.

(** X8: exchanging the two clouds (and their filters) exchanges accuracy
    with completeness, precision with recall and the two curves, and keeps
    the thresholds. *)
Theorem compare_point_clouds_swap (σ : gmap nat PointCloud)
    (src_ply tgt_ply : nat) (csrc ctgt : PointCloud) (max_dist : Q)
    (src_filt tgt_filt : list Z) :
  σ !! src_ply = Some csrc → σ !! tgt_ply = Some ctgt →
  valid_index_set src_filt (nearest_distances (points csrc) (points ctgt)) ≠ ∅ →
  valid_index_set tgt_filt (nearest_distances (points ctgt) (points csrc)) ≠ ∅ →
  ∃ r σ1 r' σ2,
    compare_point_clouds nearest_distances hot_r winter set_to_list src_ply
      tgt_ply max_dist src_filt tgt_filt σ = (Returned r, σ1)
    ∧ compare_point_clouds nearest_distances hot_r winter set_to_list tgt_ply
        src_ply max_dist tgt_filt src_filt σ = (Returned r', σ2)
    ∧ acc r' = comp r ∧ comp r' = acc r
    ∧ prec r' = rec r ∧ rec r' = prec r
    ∧ th_vals r' = th_vals r
    ∧ prec_vals r' = rec_vals r ∧ rec_vals r' = prec_vals r.
Proof.
  intros Hsrc Htgt Hs Ht.
  destruct (compare_point_clouds_run nearest_distances hot_r winter set_to_list
              set_to_list_perm σ src_ply tgt_ply csrc ctgt max_dist
              src_filt tgt_filt Hsrc Htgt)
    as [[_ [He|He]] | (r & σ1 & vs & vt & Hrun & _ & _ & _ & Hgs & Hgt
                       & Hacc & Hcomp & Hprec & Hrec & Hth & Hpv & Hrv)];
    [done..|].
  destruct (compare_point_clouds_run nearest_distances hot_r winter set_to_list
              set_to_list_perm σ tgt_ply src_ply ctgt csrc max_dist
              tgt_filt src_filt Htgt Hsrc)
    as [[_ [He|He]] | (r' & σ2 & vt' & vs' & Hrun' & _ & _ & _ & Hgt' & Hgs'
                       & Hacc' & Hcomp' & Hprec' & Hrec' & Hth' & Hpv' & Hrv')];
    [done..|].
  assert (vt' = vt) as -> by congruence.
  assert (vs' = vs) as -> by congruence.
  exists r, σ1, r', σ2. split; [done|]. split; [done|].
  repeat split; congruence.
Qed.

End compare_clouds_ranges.

(** ** Rules that track the new objects *)

Lemma holds_refl (σ0 : gmap nat PointCloud) : holds σ0 [] σ0.
Proof. split; [done|]. split; constructor. Qed.

Lemma holds_lookup_old (σ0 : gmap nat PointCloud) M l c :
  σ0 !! l = Some c → ∀ σ, holds σ0 M σ → σ !! l = Some c.
Proof. intros Hl σ (Hold & _). by apply Hold. Qed.

Lemma holds_lookup_new (σ0 : gmap nat PointCloud) M l c :
  (l, c) ∈ M → ∀ σ, holds σ0 M σ → σ !! l = Some c.
Proof.
  intros Hl σ (_ & _ & Hnew). rewrite Forall_forall in Hnew.
  by destruct (Hnew _ Hl).
Qed.

Lemma triple_new_cloud_holds (σ0 : gmap nat PointCloud) M (c : PointCloud) E :
  triple (holds σ0 M) (new_cloud c) (λ l σ, holds σ0 ((l, c) :: M) σ) E.
Proof.
  intros σ (Hold & Hnd & Hnew). unfold new_cloud.
  set (l := fresh (dom σ)).
  assert (σ !! l = None) as Hfresh by apply not_elem_of_dom, is_fresh.
  assert (∀ lc, lc ∈ M → lc.1 ≠ l) as Hne.
  { intros lc Hlc Heq. rewrite Forall_forall in Hnew.
    destruct (Hnew _ Hlc) as [_ Hsome]. rewrite Heq in Hsome. congruence. }
  split; [|split].
  - intros l' c' Hl'. rewrite lookup_insert_ne; [by apply Hold|].
    intros <-. apply Hold in Hl'. congruence.
  - simpl. constructor; [|done].
    intros (lc & Heq & Hlc)%list_elem_of_fmap. by apply (Hne lc).
  - constructor; simpl.
    + split; [|by rewrite lookup_insert_eq].
      destruct (σ0 !! l) as [c'|] eqn:Hl; [|done].
      apply Hold in Hl. congruence.
    + apply Forall_forall. intros lc Hlc. rewrite Forall_forall in Hnew.
      destruct (Hnew _ Hlc) as [Hnone Hsome]. split; [done|].
      rewrite lookup_insert_ne; [done|]. intros Heq. by apply (Hne lc).
Qed.

Lemma triple_set_colors_holds (σ0 : gmap nat PointCloud) M (l : nat)
    (c : PointCloud) (cs : list rgb) E :
  triple (holds σ0 ((l, c) :: M)) (set_colors l cs)
    (λ _ σ, holds σ0 ((l, {| points := points c; colors := cs |}) :: M) σ) E.
Proof.
  intros σ (Hold & Hnd & Hnew). unfold set_colors.
  apply Forall_cons in Hnew as [[Hnone Hsome] Hnew]. simpl in *.
  rewrite Hsome. apply NoDup_cons in Hnd as [Hnotin Hnd].
  split; [|split].
  - intros l' c' Hl'. rewrite lookup_insert_ne; [by apply Hold|].
    intros <-. congruence.
  - simpl. by constructor.
  - constructor; simpl.
    + split; [done|]. by rewrite lookup_insert_eq.
    + apply Forall_forall. intros lc Hlc. rewrite Forall_forall in Hnew.
      destruct (Hnew _ Hlc) as [Hnone' Hsome']. split; [done|].
      rewrite lookup_insert_ne; [done|]. intros ->.
      apply Hnotin, list_elem_of_fmap. by exists lc.
Qed.

Lemma triple_len_points_holds (σ0 : gmap nat PointCloud) M (l : nat)
    (c : PointCloud) E :
  (l, c) ∈ M →
  triple (holds σ0 M) (len_points l)
    (λ n σ, n = length (points c) ∧ holds σ0 M σ) E.
Proof.
  intros Hl. unfold len_points. eapply triple_bind.
  - apply (triple_deref _ l c). by apply holds_lookup_new.
  - intros c'. apply triple_pure. intros ->. by apply triple_ret.
Qed.

Lemma triple_select_by_index_holds (σ0 : gmap nat PointCloud) M (l : nat)
    (c : PointCloud) (idx : index_array) (invert : bool) E :
  σ0 !! l = Some c →
  triple (holds σ0 M) (select_by_index l idx invert)
    (λ l' σ, holds σ0 ((l',
       {| points := select_from (λ i, xorb (bool_decide (i ∈ indices idx)) invert)
                      0 (points c);
          colors := if has_colors c
                    then select_from
                           (λ i, xorb (bool_decide (i ∈ indices idx)) invert)
                           0 (colors c)
                    else [] |}) :: M) σ) E.
Proof.
  intros Hl. unfold select_by_index. eapply triple_bind.
  - apply (triple_deref _ l c). by apply holds_lookup_old.
  - intros c'. apply triple_pure. intros ->. apply triple_new_cloud_holds.
Qed.

Lemma triple_cloud_add_holds (σ0 : gmap nat PointCloud) M (a b : nat)
    (ca cb : PointCloud) E :
  (a, ca) ∈ M → (b, cb) ∈ M →
  triple (holds σ0 M) (cloud_add a b)
    (λ l σ, ∃ c, points c = points ca ++ points cb ∧ holds σ0 ((l, c) :: M) σ) E.
Proof.
  intros Ha Hb. unfold cloud_add. eapply triple_bind.
  - apply (triple_deref _ a ca). by apply holds_lookup_new.
  - intros ca'. apply triple_pure. intros ->. eapply triple_bind.
    + apply (triple_deref _ b cb). by apply holds_lookup_new.
    + intros cb'. apply triple_pure. intros ->.
      intros σ Hσ. pose proof (triple_new_cloud_holds σ0 M
        {| points := points ca ++ points cb;
           colors := if (bool_decide (points ca = []) || has_colors ca)
                        && has_colors cb
                     then colors ca ++ colors cb else [] |} E σ Hσ) as H.
      destruct (new_cloud _ σ) as [[l|cls] σ']; [|done].
      eexists. split; [|exact H]. done.
Qed.

(** ** Selections by index *)
Lemma select_from_ext {A} (keep keep' : nat → bool) (n : nat) (a : list A) :
  (∀ i, keep i = keep' i) → select_from keep n a = select_from keep' n a.
Proof.
  intros H. revert n. induction a as [|x a IH]; intros n; simpl; [done|].
  by rewrite H, IH.
Qed.

Lemma select_from_partition {A} (keep : nat → bool) (n : nat) (a : list A) :
  select_from keep n a ++ select_from (λ i, negb (keep i)) n a ≡ₚ a.
Proof.
  revert n. induction a as [|x a IH]; intros n; simpl; [done|].
  destruct (keep n); simpl.
  - by rewrite IH.
  - by rewrite <- Permutation_middle, IH.
Qed.

Lemma length_select_from {A} (X : gset nat) (n : nat) (a : list A) :
  length (select_from (λ i, bool_decide (i ∈ X)) n a)
  = length (filter (.∈ X) (seq n (length a))).
Proof.
  revert n. induction a as [|x a IH]; intros n; simpl; [done|].
  rewrite filter_cons. case_bool_decide as Hn.
  - rewrite decide_True by done. simpl. by rewrite IH.
  - rewrite decide_False by done. by rewrite IH.
Qed.

Lemma length_select_from_size {A} (X : gset nat) (a : list A) :
  (∀ i, i ∈ X → i < length a)%nat →
  length (select_from (λ i, bool_decide (i ∈ X)) 0 a) = size X.
Proof.
  intros Hin. rewrite length_select_from.
  change (size X) with (length (elements X)).
  apply Permutation_length, NoDup_Permutation.
  - apply NoDup_filter, NoDup_seq.
  - apply NoDup_elements.
  - intros i. rewrite list_elem_of_filter, elem_of_seq, elem_of_elements.
    split; [by intros [? _]|]. intros Hi. split; [done|].
    specialize (Hin i Hi). lia.
Qed.

Lemma triple_exists {A B} (P : B → gmap nat PointCloud → Prop) (m : py A) Q E :
  (∀ b, triple (P b) m Q E) → triple (λ σ, ∃ b, P b σ) m Q E.
Proof. intros H σ [b Hb]. by apply (H b). Qed.

Ltac elem_of_list := rewrite !elem_of_cons; auto 12.

Section compare_clouds_contents.

Variable nearest_distances : list point → list point → list Q.
Variable hot_r winter : npfloat → rgb.
Variable set_to_list : gset nat → list nat.
Hypothesis set_to_list_perm : ∀ X : gset nat, set_to_list X ≡ₚ elements X.

Lemma compare_point_clouds_contents (σ0 : gmap nat PointCloud)
    (src_ply tgt_ply : nat) (csrc ctgt : PointCloud) (max_dist : Q)
    (src_filt tgt_filt : list Z) :
  σ0 !! src_ply = Some csrc → σ0 !! tgt_ply = Some ctgt →
  let idx_s := valid_inds_array set_to_list src_filt
                 (nearest_distances (points csrc) (points ctgt)) in
  let idx_t := valid_inds_array set_to_list tgt_filt
                 (nearest_distances (points ctgt) (points csrc)) in
  let sel idx invert pts :=
    select_from (λ i, xorb (bool_decide (i ∈ indices idx)) invert) 0 pts in
  triple (λ σ, σ = σ0)
    (compare_point_clouds nearest_distances hot_r winter set_to_list src_ply
       tgt_ply max_dist src_filt tgt_filt)
    (λ r σ, ∃ cp cr,
        σ !! precision_ply r = Some cp ∧ σ !! recall_ply r = Some cr
        ∧ points cp = sel idx_s false (points csrc) ++ sel idx_s true (points csrc)
        ∧ points cr = sel idx_t false (points ctgt) ++ sel idx_t true (points ctgt)
        ∧ src_size r = length (sel idx_s false (points csrc))
        ∧ tgt_size r = length (sel idx_t false (points ctgt)))
    (λ _ _, True).
Proof.
  intros Hsrc Htgt idx_s idx_t sel. unfold compare_point_clouds.
  eapply triple_bind.
  { apply (triple_compute_point_cloud_distance _ _ _ _ csrc ctgt); by intros σ ->. }
  intros ?. apply triple_pure. intros ->. fold idx_s.
  destruct (np_getitem_valid set_to_list set_to_list_perm src_filt
              (nearest_distances (points csrc) (points ctgt)))
    as [[_ Hgs] | (_ & vs & Hgs & Hvs & _)]; fold idx_s in Hgs; rewrite Hgs.
  { by apply triple_lift_Raised. }
  apply triple_lift_Returned.
  eapply triple_bind.
  { apply (triple_compute_point_cloud_distance _ _ _ _ ctgt csrc); by intros σ ->. }
  intros ?. apply triple_pure. intros ->. fold idx_t.
  destruct (np_getitem_valid set_to_list set_to_list_perm tgt_filt
              (nearest_distances (points ctgt) (points csrc)))
    as [[_ Hgt] | (_ & vt & Hgt & Hvt & _)]; fold idx_t in Hgt; rewrite Hgt.
  { by apply triple_lift_Raised. }
  apply triple_lift_Returned.
  rewrite !mapM_fraction_within by done. do 2 apply triple_lift_Returned.
  rewrite !fraction_within_Returned by done. do 2 apply triple_lift_Returned.
  apply (triple_weaken _ (holds σ0 [])).
  { intros σ ->. apply holds_refl. }
  (* the source side *)
  eapply triple_bind; [by eapply triple_select_by_index_holds|].
  intros valid_src_ply.
  eapply triple_bind; [apply triple_len_points_holds; elem_of_list|].
  intros src_size. apply triple_pure. intros ->.
  eapply triple_bind; [apply triple_set_colors_holds|].
  intros [].
  eapply triple_bind; [by eapply triple_select_by_index_holds|].
  intros invalid_src_ply.
  eapply triple_bind; [apply triple_len_points_holds; elem_of_list|].
  intros n_src. apply triple_pure. intros ->.
  eapply triple_bind; [apply triple_set_colors_holds|].
  intros [].
  (* the target side *)
  eapply triple_bind; [by eapply triple_select_by_index_holds|].
  intros valid_tgt_ply.
  eapply triple_bind; [apply triple_len_points_holds; elem_of_list|].
  intros tgt_size. apply triple_pure. intros ->.
  eapply triple_bind; [apply triple_set_colors_holds|].
  intros [].
  eapply triple_bind; [by eapply triple_select_by_index_holds|].
  intros invalid_tgt_ply.
  eapply triple_bind; [apply triple_len_points_holds; elem_of_list|].
  intros n_tgt. apply triple_pure. intros ->.
  eapply triple_bind; [apply triple_set_colors_holds|].
  intros [].
  (* the sums *)
  eapply triple_bind; [eapply triple_cloud_add_holds; elem_of_list|].
  intros precision_ply. apply triple_exists. intros cp.
  apply triple_pure. intros Hcp.
  eapply triple_bind; [eapply triple_cloud_add_holds; elem_of_list|].
  intros recall_ply. apply triple_exists. intros cr.
  apply triple_pure. intros Hcr.
  apply triple_ret. intros σ Hσ. exists cp, cr. simpl in *.
  split; [eapply holds_lookup_new; [|exact Hσ]; elem_of_list|].
  split; [eapply holds_lookup_new; [|exact Hσ]; elem_of_list|].
  done.
Qed.

Lemma bool_decide_valid_inds (filt : list Z) (dists : list Q) (i : nat) :
  bool_decide (i ∈ indices (valid_inds_array set_to_list filt dists))
  = bool_decide (i ∈ valid_index_set filt dists).
Proof.
  apply bool_decide_ext. unfold valid_inds_array.
  by rewrite indices_np_asarray, set_to_list_perm, elem_of_elements.
Qed.

(** The diagnostic clouds, read in the heap the call leaves. *)
Lemma compare_point_clouds_clouds (σ : gmap nat PointCloud)
    (src_ply tgt_ply : nat) (csrc ctgt : PointCloud) (max_dist : Q)
    (src_filt tgt_filt : list Z) :
  σ !! src_ply = Some csrc → σ !! tgt_ply = Some ctgt →
  let Xs := valid_index_set src_filt
              (nearest_distances (points csrc) (points ctgt)) in
  let Xt := valid_index_set tgt_filt
              (nearest_distances (points ctgt) (points csrc)) in
  Xs ≠ ∅ → Xt ≠ ∅ →
  ∃ r σ' cp cr,
    compare_point_clouds nearest_distances hot_r winter set_to_list src_ply
      tgt_ply max_dist src_filt tgt_filt σ = (Returned r, σ')
    ∧ σ' !! precision_ply r = Some cp ∧ σ' !! recall_ply r = Some cr
    ∧ points cp = select_from (λ i, bool_decide (i ∈ Xs)) 0 (points csrc)
                  ++ select_from (λ i, negb (bool_decide (i ∈ Xs))) 0 (points csrc)
    ∧ points cr = select_from (λ i, bool_decide (i ∈ Xt)) 0 (points ctgt)
                  ++ select_from (λ i, negb (bool_decide (i ∈ Xt))) 0 (points ctgt)
    ∧ src_size r = length (select_from (λ i, bool_decide (i ∈ Xs)) 0 (points csrc))
    ∧ tgt_size r = length (select_from (λ i, bool_decide (i ∈ Xt)) 0 (points ctgt)).
Proof.
  intros Hsrc Htgt Xs Xt Hs Ht.
  destruct (compare_point_clouds_run nearest_distances hot_r winter set_to_list
              set_to_list_perm σ src_ply tgt_ply csrc ctgt max_dist
              src_filt tgt_filt Hsrc Htgt)
    as [[_ [He|He]] | (r & σ' & _ & _ & Hrun & _)]; [done..|].
  pose proof (compare_point_clouds_contents σ src_ply tgt_ply csrc ctgt max_dist
                src_filt tgt_filt Hsrc Htgt σ eq_refl) as H.
  rewrite Hrun in H. destruct H as (cp & cr & Hcp & Hcr & Hpp & Hpr & Hss & Hts).
  exists r, σ', cp, cr. split; [done|]. split; [done|]. split; [done|].
  assert (Hsel : ∀ filt dists invert (pts : list point),
            select_from (λ i, xorb (bool_decide
              (i ∈ indices (valid_inds_array set_to_list filt dists))) invert) 0 pts
            = select_from (λ i, if invert
                                then negb (bool_decide (i ∈ valid_index_set filt dists))
                                else bool_decide (i ∈ valid_index_set filt dists))
                0 pts).
  { intros filt dists invert pts. apply select_from_ext. intros i.
    rewrite bool_decide_valid_inds. by destruct invert, (bool_decide _). }
  rewrite (Hsel _ _ false), (Hsel _ _ true) in Hpp.
  rewrite (Hsel _ _ false), (Hsel _ _ true) in Hpr.
  rewrite (Hsel _ _ false) in Hss. rewrite (Hsel _ _ false) in Hts. done.
Qed.

(** X9: each diagnostic cloud holds the points of its input cloud, each
    once; its first [src_size] (resp. [tgt_size]) points are the valid
    points, in the order of the input. *)
Theorem compare_point_clouds_diagnostic_clouds (σ : gmap nat PointCloud)
    (src_ply tgt_ply : nat) (csrc ctgt : PointCloud) (max_dist : Q)
    (src_filt tgt_filt : list Z) :
  σ !! src_ply = Some csrc → σ !! tgt_ply = Some ctgt →
  valid_index_set src_filt (nearest_distances (points csrc) (points ctgt)) ≠ ∅ →
  valid_index_set tgt_filt (nearest_distances (points ctgt) (points csrc)) ≠ ∅ →
  ∃ r σ' cp cr,
    compare_point_clouds nearest_distances hot_r winter set_to_list src_ply
      tgt_ply max_dist src_filt tgt_filt σ = (Returned r, σ')
    ∧ σ' !! precision_ply r = Some cp ∧ σ' !! recall_ply r = Some cr
    ∧ points cp ≡ₚ points csrc ∧ points cr ≡ₚ points ctgt
    ∧ take (src_size r) (points cp)
      = select_from (λ i, bool_decide (i ∈ valid_index_set src_filt
            (nearest_distances (points csrc) (points ctgt)))) 0 (points csrc)
    ∧ take (tgt_size r) (points cr)
      = select_from (λ i, bool_decide (i ∈ valid_index_set tgt_filt
            (nearest_distances (points ctgt) (points csrc)))) 0 (points ctgt).
Proof.
  intros Hsrc Htgt Hs Ht.
  destruct (compare_point_clouds_clouds σ src_ply tgt_ply csrc ctgt max_dist
              src_filt tgt_filt Hsrc Htgt Hs Ht)
    as (r & σ' & cp & cr & Hrun & Hcp & Hcr & Hpp & Hpr & Hss & Hts).
  exists r, σ', cp, cr. do 3 (split; [done|]).
  split; [rewrite Hpp; apply select_from_partition|].
  split; [rewrite Hpr; apply select_from_partition|].
  rewrite Hpp, Hpr, Hss, Hts. by rewrite !take_app_length.
Qed.

(** X10: when there is one distance per point, the sizes returned are the
    numbers of valid indices, at least 1 and at most the size of the
    cloud. *)
Theorem compare_point_clouds_sizes (σ : gmap nat PointCloud)
    (src_ply tgt_ply : nat) (csrc ctgt : PointCloud) (max_dist : Q)
    (src_filt tgt_filt : list Z) :
  σ !! src_ply = Some csrc → σ !! tgt_ply = Some ctgt →
  length (nearest_distances (points csrc) (points ctgt)) = length (points csrc) →
  length (nearest_distances (points ctgt) (points csrc)) = length (points ctgt) →
  valid_index_set src_filt (nearest_distances (points csrc) (points ctgt)) ≠ ∅ →
  valid_index_set tgt_filt (nearest_distances (points ctgt) (points csrc)) ≠ ∅ →
  ∃ r σ',
    compare_point_clouds nearest_distances hot_r winter set_to_list src_ply
      tgt_ply max_dist src_filt tgt_filt σ = (Returned r, σ')
    ∧ src_size r = size (valid_index_set src_filt
                           (nearest_distances (points csrc) (points ctgt)))
    ∧ tgt_size r = size (valid_index_set tgt_filt
                           (nearest_distances (points ctgt) (points csrc)))
    ∧ (0 < src_size r ≤ length (points csrc))%nat
    ∧ (0 < tgt_size r ≤ length (points ctgt))%nat.
Proof.
  intros Hsrc Htgt Hls Hlt Hs Ht.
  destruct (compare_point_clouds_clouds σ src_ply tgt_ply csrc ctgt max_dist
              src_filt tgt_filt Hsrc Htgt Hs Ht)
    as (r & σ' & cp & cr & Hrun & _ & _ & _ & _ & Hss & Hts).
  exists r, σ'. split; [done|].
  assert (Hrange : ∀ filt dists (pts : list point) i,
            length dists = length pts →
            i ∈ valid_index_set filt dists → (i < length pts)%nat).
  { intros filt dists pts i Hlen (_ & d & Hd & _)%elem_of_valid_index_set.
    rewrite <- Hlen. by eapply lookup_lt_Some. }
  rewrite length_select_from_size in Hss by (intros i; by apply Hrange).
  rewrite length_select_from_size in Hts by (intros i; by apply Hrange).
  split; [done|]. split; [done|].
  assert (Hsize : ∀ filt dists (pts : list point),
            length dists = length pts → valid_index_set filt dists ≠ ∅ →
            (0 < size (valid_index_set filt dists) ≤ length pts)%nat).
  { intros filt dists pts Hlen Hne. split.
    - assert (size (valid_index_set filt dists) ≠ 0)%nat; [|lia].
      apply size_non_empty_iff. intros He. by apply leibniz_equiv in He.
    - rewrite <- (length_select_from_size _ pts) by (intros i; by apply Hrange).
      rewrite length_select_from. etrans; [apply length_filter|].
      by rewrite length_seq. }
  rewrite Hss, Hts. split; by apply Hsize.
Qed.

End compare_clouds_contents.

(** ** The accepted paths *)
Lemma substring_0_all (s : string) (k : nat) :
  (String.length s ≤ k)%nat → String.substring 0 k s = s.
Proof.
  revert k. induction s as [|x s IH]; intros k Hk.
  - by destruct k.
  - destruct k as [|k]; [simpl in Hk; lia|].
    simpl. rewrite IH; [done | simpl in Hk; lia].
Qed.

Lemma substring_append (a b : string) (k : nat) :
  String.substring (String.length a) k (a +:+ b) = String.substring 0 k b.
Proof. induction a as [|x a IH]; [done | exact IH]. Qed.

Lemma length_append (a b : string) :
  String.length (a +:+ b) = (String.length a + String.length b)%nat.
Proof.
  induction a as [|x a IH]; [done|].
  change (S (String.length (a +:+ b)) = S (String.length a + String.length b)).
  by rewrite IH.
Qed.

Lemma substring_split (s : string) (n : nat) :
  (n ≤ String.length s)%nat →
  ∃ stem, String.length stem = n
          ∧ s = stem +:+ String.substring n (String.length s - n) s.
Proof.
  revert n. induction s as [|x s IH]; intros n Hn.
  - exists "". simpl in Hn. by replace n with 0%nat by lia.
  - destruct n as [|n].
    + exists "". split; [done|].
      rewrite substring_0_all by lia. done.
    + destruct (IH n) as (stem & Hlen & Heq); [simpl in Hn; lia|].
      exists (String x stem). split; [by rewrite <- Hlen|].
      change (String x s = String x (stem +:+ String.substring n
                (String.length s - n) s)). by rewrite <- Heq.
Qed.

Lemma py_suffix_ply (path : string) :
  py_suffix 3 path = "ply" ↔ ∃ stem, path = stem +:+ "ply".
Proof.
  unfold py_suffix. split.
  - intros Hsuf.
    destruct (le_lt_dec 3 (String.length path)) as [Hlen|Hlen].
    + destruct (substring_split path (String.length path - 3)) as (stem & _ & Heq);
        [lia|].
      replace (String.length path - (String.length path - 3))%nat with 3%nat
        in Heq by lia.
      exists stem. by rewrite <- Hsuf.
    + replace (String.length path - 3)%nat with 0%nat in Hsuf by lia.
      rewrite substring_0_all in Hsuf by lia. subst. simpl in Hlen. lia.
  - intros [stem ->]. rewrite length_append.
    replace (String.length stem + String.length "ply" - 3)%nat
      with (String.length stem) by (simpl; lia).
    by rewrite substring_append.
Qed.

Section read_cloud_paths.

Variable o3d_io_read_point_cloud : string → PointCloud.
Variable voxel_grid_filter : PointCloud → Q → PointCloud.

(** X11: [read_point_cloud] loads the paths of the form [stem ++ "ply"] and
    exits on all others; a path of fewer than three characters makes it
    exit, the slice [ply_path[-3:]] raising nothing. *)
Theorem read_point_cloud_accepts_suffix (ply_path : string) (size : Q)
    (σ : gmap nat PointCloud) :
  ((∃ stem, ply_path = stem +:+ "ply") →
     ∃ o σ',
       read_point_cloud o3d_io_read_point_cloud voxel_grid_filter ply_path size σ
       = ([], (o, σ'))
       ∧ o ≠ Raised SystemExit
       ∧ ∃ l, σ !! l = None ∧ σ' !! l = Some (o3d_io_read_point_cloud ply_path))
  ∧ ((¬ ∃ stem, ply_path = stem +:+ "ply") →
     read_point_cloud o3d_io_read_point_cloud voxel_grid_filter ply_path size σ
     = ([ply_path +:+ " is not a '.ply' file."], (Raised SystemExit, σ)))
  ∧ ((String.length ply_path < 3)%nat →
     read_point_cloud o3d_io_read_point_cloud voxel_grid_filter ply_path size σ
     = ([ply_path +:+ " is not a '.ply' file."], (Raised SystemExit, σ))).
Proof.
  assert (Hexit : (¬ ∃ stem, ply_path = stem +:+ "ply") →
     read_point_cloud o3d_io_read_point_cloud voxel_grid_filter ply_path size σ
     = ([ply_path +:+ " is not a '.ply' file."], (Raised SystemExit, σ))).
  { intros Hno. unfold read_point_cloud.
    replace (String.eqb (py_suffix 3 ply_path) "ply") with false; [done|].
    symmetry. apply String.eqb_neq. by rewrite py_suffix_ply. }
  split; [|split; [exact Hexit|]].
  - intros Hsuf. apply py_suffix_ply, String.eqb_eq in Hsuf.
    unfold read_point_cloud. rewrite Hsuf. simpl.
    set (c := o3d_io_read_point_cloud ply_path).
    set (l := fresh (dom σ)).
    assert (σ !! l = None) as Hl by apply not_elem_of_dom, is_fresh.
    unfold mbind, py_bind, new_cloud, voxel_down_sample, deref. fold l.
    unfold mbind, py_bind. rewrite lookup_insert_eq.
    destruct (Qle_bool size 0); unfold lift.
    + eexists _, _. split; [done|]. split; [done|].
      exists l. by rewrite lookup_insert_eq.
    + eexists _, _. split; [done|]. split; [done|].
      exists l. split; [done|].
      rewrite lookup_insert_ne; [by rewrite lookup_insert_eq|].
      intros Heq.
      pose proof (is_fresh (dom (<[l:=c]> σ))) as Hfresh.
      rewrite Heq in Hfresh. apply Hfresh, elem_of_dom.
      rewrite lookup_insert_eq. by eexists.
  - intros Hlen. apply Hexit. intros [stem ->].
    rewrite length_append in Hlen. simpl in Hlen. lia.
Qed.

(** X12: whatever the path and the voxel size, [read_point_cloud] leaves
    the clouds that exist as they are. *)
Theorem read_point_cloud_frame (ply_path : string) (size : Q)
    (σ : gmap nat PointCloud) (l : nat) (c : PointCloud) :
  σ !! l = Some c →
  snd (snd (read_point_cloud o3d_io_read_point_cloud voxel_grid_filter
              ply_path size σ)) !! l = Some c.
Proof.
  intros Hl. unfold read_point_cloud.
  destruct (negb _); [done|]. simpl.
  set (c0 := o3d_io_read_point_cloud ply_path).
  set (l0 := fresh (dom σ)).
  assert (σ !! l0 = None) as Hl0 by apply not_elem_of_dom, is_fresh.
  assert (l0 ≠ l) as Hne by (intros ->; congruence).
  unfold mbind, py_bind, new_cloud, voxel_down_sample, deref. fold l0.
  unfold mbind, py_bind. rewrite lookup_insert_eq.
  destruct (Qle_bool size 0); unfold lift; simpl.
  - by rewrite lookup_insert_ne.
  - set (l1 := fresh (dom (<[l0:=c0]> σ))).
    assert (<[l0:=c0]> σ !! l1 = None) as Hl1 by apply not_elem_of_dom, is_fresh.
    assert (l1 ≠ l) as Hne1.
    { intros ->. rewrite lookup_insert_ne in Hl1 by done. congruence. }
    by rewrite !lookup_insert_ne.
Qed.

End read_cloud_paths.

(** ** The text of a figure *)

Lemma append_empty_r (s : string) : s +:+ "" = s.
Proof.
  induction s as [|x s IH]; [done|].
  change (String x (s +:+ "") = String x s). by rewrite IH.
Qed.

Section latex_figures_text_properties.
Variable Image : Type.
Variable format_image : Image → string.
Variable format_width : Q → string.

Lemma create_subfigures_loop_text (images : list Image)
    (captions labels : list string) (width_scale : Q) (m a : nat)
    (figure : string) :
  (a + m ≤ length images)%nat → (a + m ≤ length captions)%nat →
  (a + m ≤ length labels)%nat →
  for_each (λ figure n,
      img ← py_index images n;
      caption ← py_index captions n;
      label ← py_index labels n;
      mret (figure +:+ subfigure Image format_image format_width width_scale
                         img caption label))
    figure (seq a m)
  = Returned (figure +:+ subfigures Image format_image format_width width_scale
                (take m (drop a images)) (take m (drop a captions))
                (take m (drop a labels))).
Proof.
  revert a figure. induction m as [|m IH]; intros a figure Hi Hc Hl.
  - simpl. by rewrite append_empty_r.
  - destruct (py_index_Returned images a) as (img & Himg & Hpi); [lia|].
    destruct (py_index_Returned captions a) as (caption & Hcap & Hpc); [lia|].
    destruct (py_index_Returned labels a) as (label & Hlab & Hpl); [lia|].
    simpl for_each. rewrite Hpi, Hpc, Hpl, !outcome_bind_Returned.
    unfold mret, outcome_ret. rewrite ?outcome_bind_Returned.
    rewrite IH by lia.
    rewrite (drop_S _ _ _ Himg), (drop_S _ _ _ Hcap), (drop_S _ _ _ Hlab).
    simpl. by rewrite append_assoc.
Qed.



(** X14: [create_subfigures] raises [ZeroDivisionError] on an empty list
    of images, and [IndexError] when the captions or the labels are fewer
    than the images. *)
Theorem create_subfigures_errors (images : list Image)
    (captions labels : list string) :
  (images = [] →
     create_subfigures Image format_image format_width images captions labels
     = Raised ZeroDivisionError)
  ∧ (images ≠ [] →
     (length captions < length images)%nat ∨ (length labels < length images)%nat →
     create_subfigures Image format_image format_width images captions labels
     = Raised IndexError).
Proof.
  split.
  - by intros ->.
  - intros Hne Hshort. unfold create_subfigures.
    destruct (length images) as [|m] eqn:Hlen; [by destruct images|].
    simpl py_truediv. rewrite outcome_bind_Returned.
    set (k := (length captions `min` length labels)%nat).
    assert (k < S m)%nat as Hk by (unfold k; lia).
    assert (seq 0 (S m) = seq 0 k ++ k :: seq (S k) (m - k)) as ->.
    { replace (S m) with (k + S (m - k))%nat by lia. by rewrite seq_app. }
    rewrite for_each_app.
    rewrite create_subfigures_loop_text by (unfold k; lia).
    rewrite outcome_bind_Returned. simpl for_each.
    destruct (py_index_Returned images k) as (img & _ & ->); [lia|].
    rewrite outcome_bind_Returned. unfold py_index.
    destruct (captions !! k) as [caption|] eqn:Hcap; [|done].
    rewrite outcome_bind_Returned.
    destruct (labels !! k) as [label|] eqn:Hlab; [|done].
    apply lookup_lt_Some in Hcap, Hlab. unfold k in *. lia.
Qed.

End latex_figures_text_properties.

(** ** Inliers and outliers *)

Lemma triple_paint_uniform_color_holds (σ0 : gmap nat PointCloud) M1 M2 (l : nat)
    (c : PointCloud) (color : rgb) E :
  triple (holds σ0 (M1 ++ (l, c) :: M2)) (paint_uniform_color l color)
    (λ _ σ, holds σ0 (M1 ++ (l, {| points := points c;
                                    colors := replicate (length (points c)) color |})
                         :: M2) σ) E.
Proof.
  intros σ (Hold & Hnd & Hnew). unfold paint_uniform_color.
  rewrite fmap_app, fmap_cons in Hnd. simpl in Hnd.
  apply NoDup_app in Hnd as (Hnd1 & Hdisj & Hnd2).
  apply NoDup_cons in Hnd2 as [Hnotin2 Hnd2].
  apply Forall_app in Hnew as [Hnew1 Hnew2].
  apply Forall_cons in Hnew2 as [[Hnone Hsome] Hnew2]. simpl in *.
  rewrite Hsome. split; [|split].
  - intros l' c' Hl'. rewrite lookup_insert_ne; [by apply Hold|].
    intros <-. congruence.
  - rewrite fmap_app, fmap_cons. simpl. apply NoDup_app.
    split; [done|]. split; [done|]. by constructor.
  - apply Forall_app. split; [|constructor].
    + apply Forall_forall. intros lc Hlc. rewrite Forall_forall in Hnew1.
      destruct (Hnew1 _ Hlc) as [Hnone' Hsome']. split; [done|].
      rewrite lookup_insert_ne; [done|]. intros ->.
      apply (Hdisj lc.1); [apply list_elem_of_fmap; by exists lc | by left].
    + simpl. split; [done|]. by rewrite lookup_insert_eq.
    + apply Forall_forall. intros lc Hlc. rewrite Forall_forall in Hnew2.
      destruct (Hnew2 _ Hlc) as [Hnone' Hsome']. split; [done|].
      rewrite lookup_insert_ne; [done|]. intros ->.
      apply Hnotin2, list_elem_of_fmap. by exists lc.
Qed.

(** X15: [display_inlier_outlier] shows two new clouds, the points at the
    listed indices in grey and the other points in red; together they hold
    each point of the cloud once, and the cloud itself is not modified. *)
Theorem display_inlier_outlier_partition (σ : gmap nat PointCloud) (cloud : nat)
    (c : PointCloud) (ind : list nat) :
  σ !! cloud = Some c →
  ∃ inlier outlier σ' ci co,
    display_inlier_outlier cloud ind σ = (Returned [inlier; outlier], σ')
    ∧ σ' !! cloud = Some c
    ∧ σ !! inlier = None ∧ σ !! outlier = None ∧ inlier ≠ outlier
    ∧ σ' !! inlier = Some ci ∧ σ' !! outlier = Some co
    ∧ points ci = select_from (λ i, bool_decide (i ∈ ind)) 0 (points c)
    ∧ points co = select_from (λ i, negb (bool_decide (i ∈ ind))) 0 (points c)
    ∧ points ci ++ points co ≡ₚ points c
    ∧ colors ci = replicate (length (points ci)) (8 # 10, 8 # 10, 8 # 10)%Q
    ∧ colors co = replicate (length (points co)) (1, 0, 0)%Q.
Proof.
  intros Hc.
  assert (triple (λ σ1, σ1 = σ) (display_inlier_outlier cloud ind)
    (λ r σ', ∃ inlier outlier ci co, r = [inlier; outlier]
       ∧ holds σ ((outlier, co) :: (inlier, ci) :: []) σ'
       ∧ points ci = select_from (λ i, xorb (bool_decide (i ∈ ind)) false) 0 (points c)
       ∧ points co = select_from (λ i, xorb (bool_decide (i ∈ ind)) true) 0 (points c)
       ∧ colors ci = replicate (length (points ci)) (8 # 10, 8 # 10, 8 # 10)%Q
       ∧ colors co = replicate (length (points co)) (1, 0, 0)%Q)
    (λ _ _, False)) as Htriple.
  { unfold display_inlier_outlier.
    apply (triple_weaken _ (holds σ [])); [intros ? ->; apply holds_refl|].
    eapply triple_bind; [by eapply triple_select_by_index_holds|].
    intros inlier.
    eapply triple_bind; [by eapply triple_select_by_index_holds|].
    intros outlier.
    eapply triple_bind; [apply (triple_paint_uniform_color_holds _ [])|].
    intros [].
    eapply triple_bind; [apply (triple_paint_uniform_color_holds _ [_])|].
    intros [].
    apply triple_ret. intros σ' Hσ'. eexists _, _, _, _.
    split; [done|]. split; [exact Hσ'|]. done. }
  specialize (Htriple σ eq_refl).
  destruct (display_inlier_outlier cloud ind σ) as [[r|cls] σ']; [|done].
  destruct Htriple as (inlier & outlier & ci & co & -> & Hholds & Hpi & Hpo
                       & Hci & Hco).
  exists inlier, outlier, σ', ci, co. split; [done|].
  pose proof Hholds as (Hold & Hnd & Hnew).
  apply Forall_cons in Hnew as [[Ho1 Ho2] Hnew].
  apply Forall_cons in Hnew as [[Hi1 Hi2] _]. simpl in *.
  apply NoDup_cons in Hnd as [Hnotin _].
  split; [by apply Hold|]. do 2 (split; [done|]).
  split. { intros ->. apply Hnotin. by left. }
  do 2 (split; [done|]).
  assert (points ci = select_from (λ i, bool_decide (i ∈ ind)) 0 (points c)) as Hpi'.
  { rewrite Hpi. apply select_from_ext. intros i. by destruct (bool_decide _). }
  assert (points co = select_from (λ i, negb (bool_decide (i ∈ ind))) 0 (points c))
    as Hpo'.
  { rewrite Hpo. apply select_from_ext. intros i. by destruct (bool_decide _). }
  do 2 (split; [done|]). split; [|done].
  rewrite Hpi', Hpo'. apply select_from_partition.
Qed.


Section pipeline.

Variable nearest_distances : list point → list point → list Q.
Variable hot_r winter : npfloat → rgb.
Variable set_to_list : gset nat → list nat.
Hypothesis set_to_list_perm : ∀ X : gset nat, set_to_list X ≡ₚ elements X.


End pipeline.

(** ** The further properties on the example inputs *)


Lemma build_src_points_filter_app_witness :
  ∃ filt1 filt2,
    build_src_points_filter [(1, 1, 1)]%Q (0, 0, 0)%Q 1
      {| shape := (3, 3, 3)%nat; flatten := replicate 27 true |} = Returned filt1
    ∧ build_src_points_filter [(5, 0, 0); (0, 2, 1)]%Q (0, 0, 0)%Q 1
        {| shape := (3, 3, 3)%nat; flatten := replicate 27 true |} = Returned filt2
    ∧ build_src_points_filter ([(1, 1, 1)] ++ [(5, 0, 0); (0, 2, 1)])%Q
        (0, 0, 0)%Q 1
        {| shape := (3, 3, 3)%nat; flatten := replicate 27 true |}
      = Returned (filt1 ++ filt2).
Proof.
  apply (build_src_points_filter_app [(1, 1, 1)]%Q [(5, 0, 0); (0, 2, 1)]%Q
           (0, 0, 0)%Q 1
           {| shape := (3, 3, 3)%nat; flatten := replicate 27 true |}).
  reflexivity.
Defined.

Lemma build_tgt_points_filter_opposite_witness :
  ∃ v w,
    build_tgt_points_filter [(1, 0, 0); (3, 0, 0)]%Q (1, 0, 0, -(2))%Q !! 1%nat
    = Some v
    ∧ build_tgt_points_filter [(1, 0, 0); (3, 0, 0)]%Q
        (opposite_plane (1, 0, 0, -(2))%Q) !! 1%nat = Some w
    ∧ v = 1 ∧ w = 0.
Proof.
  destruct (build_tgt_points_filter_opposite [(1, 0, 0); (3, 0, 0)]%Q
              (1, 0, 0, -(2))%Q 1%nat (3, 0, 0)%Q)
    as (v & w & Hv & Hw & Hpos & _); [reflexivity|].
  exists v, w. split; [exact Hv|]. split; [exact Hw|].
  apply Hpos. reflexivity.
Defined.

Lemma compare_point_clouds_metric_ranges_witness :
  ∃ r σ',
    compare_point_clouds example_distances example_cmap example_cmap elements
      0%nat 1%nat (4 # 10) [1; 1] [1; 1; 1] example_heap = (Returned r, σ')
    ∧ (0 <= prec r)%Q ∧ (prec r <= 1)%Q ∧ (0 <= rec r)%Q ∧ (rec r <= 1)%Q.
Proof.
  destruct (compare_point_clouds_metric_ranges example_distances example_cmap
              example_cmap elements (λ X, Permutation_refl (elements X))
              example_heap 0%nat 1%nat
              {| points := [(0, 0, 1 # 10); (1, 0, 1 # 2)]%Q; colors := [] |}
              {| points := [(0, 0, 0); (1, 0, 0); (0, 1, 0)]%Q; colors := [] |}
              (4 # 10) [1; 1] [1; 1; 1])
    as (r & σ' & Hrun & H1 & H2 & H3 & H4 & _).
  - reflexivity.
  - reflexivity.
  - vm_compute. discriminate.
  - vm_compute. discriminate.
  - exists r, σ'. auto.
Defined.

Lemma compare_point_clouds_means_bounded_witness :
  ∃ r σ' a c,
    compare_point_clouds example_distances example_cmap example_cmap elements
      0%nat 1%nat (4 # 10) [1; 1] [1; 1; 1] example_heap = (Returned r, σ')
    ∧ acc r = Finite a ∧ comp r = Finite c ∧ (a <= 20)%Q ∧ (c <= 20)%Q.
Proof.
  destruct (compare_point_clouds_means_bounded example_distances example_cmap
              example_cmap elements (λ X, Permutation_refl (elements X))
              example_heap 0%nat 1%nat
              {| points := [(0, 0, 1 # 10); (1, 0, 1 # 2)]%Q; colors := [] |}
              {| points := [(0, 0, 0); (1, 0, 0); (0, 1, 0)]%Q; colors := [] |}
              (4 # 10) [1; 1] [1; 1; 1])
    as (r & σ' & a & c & Hrun & Ha & Hc & Hale & Hcle & _).
  - reflexivity.
  - reflexivity.
  - vm_compute. discriminate.
  - vm_compute. discriminate.
  - exists r, σ', a, c. auto.
Defined.

Lemma compare_point_clouds_threshold_above_cutoff_witness :
  ∃ r σ',
    compare_point_clouds example_distances example_cmap example_cmap elements
      0%nat 1%nat 20 [1; 1] [1; 1; 1] example_heap = (Returned r, σ')
    ∧ (prec r == 1)%Q ∧ (rec r == 1)%Q.
Proof.
  apply (compare_point_clouds_threshold_above_cutoff example_distances
           example_cmap example_cmap elements
           (λ X, Permutation_refl (elements X)) example_heap 0%nat 1%nat
           {| points := [(0, 0, 1 # 10); (1, 0, 1 # 2)]%Q; colors := [] |}
           {| points := [(0, 0, 0); (1, 0, 0); (0, 1, 0)]%Q; colors := [] |}
           20 [1; 1] [1; 1; 1]).
  - reflexivity.
  - reflexivity.
  - vm_compute. discriminate.
  - vm_compute. discriminate.
  - discriminate.
Defined.

Lemma compare_point_clouds_swap_witness :
  ∃ r σ1 r' σ2,
    compare_point_clouds example_distances example_cmap example_cmap elements
      0%nat 1%nat (4 # 10) [1; 1] [1; 1; 1] example_heap = (Returned r, σ1)
    ∧ compare_point_clouds example_distances example_cmap example_cmap elements
        1%nat 0%nat (4 # 10) [1; 1; 1] [1; 1] example_heap = (Returned r', σ2)
    ∧ acc r' = comp r ∧ comp r' = acc r ∧ prec r' = rec r ∧ rec r' = prec r.
Proof.
  destruct (compare_point_clouds_swap example_distances example_cmap
              example_cmap elements (λ X, Permutation_refl (elements X))
              example_heap 0%nat 1%nat
              {| points := [(0, 0, 1 # 10); (1, 0, 1 # 2)]%Q; colors := [] |}
              {| points := [(0, 0, 0); (1, 0, 0); (0, 1, 0)]%Q; colors := [] |}
              (4 # 10) [1; 1] [1; 1; 1])
    as (r & σ1 & r' & σ2 & Hrun & Hrun' & H1 & H2 & H3 & H4 & _).
  - reflexivity.
  - reflexivity.
  - vm_compute. discriminate.
  - vm_compute. discriminate.
  - exists r, σ1, r', σ2. auto 10.
Defined.

Lemma compare_point_clouds_diagnostic_clouds_witness :
  ∃ r σ' cp cr,
    compare_point_clouds example_distances example_cmap example_cmap elements
      0%nat 1%nat (4 # 10) [1; 1] [1; 1; 1] example_heap = (Returned r, σ')
    ∧ σ' !! precision_ply r = Some cp ∧ σ' !! recall_ply r = Some cr
    ∧ points cp ≡ₚ [(0, 0, 1 # 10); (1, 0, 1 # 2)]%Q
    ∧ points cr ≡ₚ [(0, 0, 0); (1, 0, 0); (0, 1, 0)]%Q.
Proof.
  destruct (compare_point_clouds_diagnostic_clouds example_distances
              example_cmap example_cmap elements
              (λ X, Permutation_refl (elements X)) example_heap 0%nat 1%nat
              {| points := [(0, 0, 1 # 10); (1, 0, 1 # 2)]%Q; colors := [] |}
              {| points := [(0, 0, 0); (1, 0, 0); (0, 1, 0)]%Q; colors := [] |}
              (4 # 10) [1; 1] [1; 1; 1])
    as (r & σ' & cp & cr & Hrun & Hcp & Hcr & Hpp & Hpr & _).
  - reflexivity.
  - reflexivity.
  - vm_compute. discriminate.
  - vm_compute. discriminate.
  - exists r, σ', cp, cr. auto.
Defined.

Lemma compare_point_clouds_sizes_witness :
  ∃ r σ',
    compare_point_clouds example_distances example_cmap example_cmap elements
      0%nat 1%nat (4 # 10) [1; 1] [1; 1; 1] example_heap = (Returned r, σ')
    ∧ (0 < src_size r ≤ 2)%nat ∧ (0 < tgt_size r ≤ 3)%nat.
Proof.
  destruct (compare_point_clouds_sizes example_distances example_cmap
              example_cmap elements (λ X, Permutation_refl (elements X))
              example_heap 0%nat 1%nat
              {| points := [(0, 0, 1 # 10); (1, 0, 1 # 2)]%Q; colors := [] |}
              {| points := [(0, 0, 0); (1, 0, 0); (0, 1, 0)]%Q; colors := [] |}
              (4 # 10) [1; 1] [1; 1; 1])
    as (r & σ' & Hrun & _ & _ & Hs & Ht).
  - reflexivity.
  - reflexivity.
  - reflexivity.
  - reflexivity.
  - vm_compute. discriminate.
  - vm_compute. discriminate.
  - exists r, σ'. auto.
Defined.

Lemma read_point_cloud_frame_witness :
  snd (snd (read_point_cloud example_reader example_filter "cloud.ply" (1 # 5)
              example_heap)) !! 0%nat
  = Some {| points := [(0, 0, 1 # 10); (1, 0, 1 # 2)]%Q; colors := [] |}.
Proof.
  apply (read_point_cloud_frame example_reader example_filter "cloud.ply"
           (1 # 5) example_heap 0%nat).
  reflexivity.
Defined.


Lemma display_inlier_outlier_partition_witness :
  ∃ inlier outlier σ' ci co,
    display_inlier_outlier 1%nat [0; 2]%nat example_heap
    = (Returned [inlier; outlier], σ')
    ∧ σ' !! inlier = Some ci ∧ σ' !! outlier = Some co
    ∧ points ci ++ points co ≡ₚ [(0, 0, 0); (1, 0, 0); (0, 1, 0)]%Q.
Proof.
  destruct (display_inlier_outlier_partition example_heap 1%nat
              {| points := [(0, 0, 0); (1, 0, 0); (0, 1, 0)]%Q; colors := [] |}
              [0; 2]%nat)
    as (inlier & outlier & σ' & ci & co & Hrun & _ & _ & _ & _ & Hci & Hco
        & _ & _ & Hperm & _).
  - reflexivity.
  - exists inlier, outlier, σ', ci, co. auto.
Defined.

